(** * Duplicate-file detection and disposal (Python/advanced_file_manager.py)

    A shallow embedding of [get_file_hash], [find_duplicate_files] and
    [manage_duplicate_files] over a small model of the operating-system
    services they call (posixpath, os, shutil, hashlib, datetime), followed
    by the properties of the detector and of the disposition engine. *)

From Stdlib Require Import Strings.Ascii Strings.Byte.
From Equations Require Import Equations.
From stdpp Require Import gmap strings list fin_maps.

Set Default Proof Using "Type".
Set Warnings "-abstract-large-number".

(** ** posixpath *)

Module posixpath.

Definition is_sep (c : ascii) : bool := bool_decide (c = "/"%char).

Fixpoint has_sep (p : string) : bool :=
  match p with
  | EmptyString => false
  | String c r => is_sep c || has_sep r
  end.

Definition startswith_sep (p : string) : bool :=
  match p with
  | String c _ => is_sep c
  | EmptyString => false
  end.

Fixpoint endswith_sep (p : string) : bool :=
  match p with
  | EmptyString => false
  | String c EmptyString => is_sep c
  | String _ r => endswith_sep r
  end.

(** [os.path.join(a, b)] for two components. *)
Definition join (a b : string) : string :=
  if startswith_sep b then b
  else if bool_decide (a = "") || endswith_sep a then a +:+ b
  else a +:+ "/" +:+ b.

(** [p[i:]] and [p[:i]] for [i = p.rfind('/') + 1]. *)
Fixpoint basename (p : string) : string :=
  match p with
  | EmptyString => ""
  | String _ r => if has_sep p then basename r else p
  end.

Fixpoint dirpart (p : string) : string :=
  match p with
  | EmptyString => ""
  | String c r => if has_sep p then String c (dirpart r) else ""
  end.

Fixpoint all_sep (p : string) : bool :=
  match p with
  | EmptyString => true
  | String c r => is_sep c && all_sep r
  end.

Fixpoint rstrip_sep (p : string) : string :=
  match p with
  | EmptyString => ""
  | String c r =>
      let r' := rstrip_sep r in
      if is_sep c && bool_decide (r' = "") then "" else String c r'
  end.

(** [os.path.split(p)] *)
Definition split (p : string) : string * string :=
  let head := dirpart p in
  (if all_sep head then head else rstrip_sep head, basename p).

(** [p] with the prefix [pre] removed, when [p] starts with [pre]. *)
Fixpoint strip_prefix (pre p : string) : option string :=
  match pre, p with
  | EmptyString, _ => Some p
  | String a pre', String b p' =>
      if bool_decide (a = b) then strip_prefix pre' p' else None
  | String _ _, EmptyString => None
  end.

End posixpath.

(** ** Exceptions, printed lines and observable events *)

(** The exceptions the modelled services raise.  Every one of them is an
    instance of [OSError] ([IOError] is an alias of it, and [shutil.Error]
    a subclass). *)
Inductive exn :=
| FileNotFoundError (filename : string)
| PermissionError (filename : string)
| IsADirectoryError (filename : string)
| NotADirectoryError (filename : string)
| FileExistsError (filename : string)
| OSError (errno : string) (filename : string)
| shutil_Error (msg : string).

Global Instance exn_eq_dec : EqDecision exn.
Proof. solve_decision. Defined.

Definition is_OSError (e : exn) : bool := true.

Definition is_shutil_Error (e : exn) : bool :=
  match e with
  | shutil_Error _ => true
  | _ => false
  end.

Definition is_FileExistsError (e : exn) : bool :=
  match e with
  | FileExistsError _ => true
  | _ => false
  end.

(** One constructor per [print] call of the source, in source order. *)
Inductive message :=
| ReadErrorMsg (e : exn)
| ScanStartMsg (directory : string)
| AccessErrorMsg (e : exn)
| NoDuplicatesMsg
| TotalPairsMsg (n : nat)
| PairHeaderMsg (i : nat)
| OriginalLabelMsg (path1 : string)
| DuplicateLabelMsg (path2 : string)
| DeletedMsg (path2 : string)
| DeleteErrorMsg (e : exn)
| MovedMsg (move_dir : string)
| MoveErrorMsg (e : exn).

Global Instance message_eq_dec : EqDecision message.
Proof. solve_decision. Defined.

Inductive event :=
| Print (m : message)
| Open (path : string)
| Unlink (path : string)
| Mkdir (path : string)
| Rename (src dst : string).

Global Instance event_eq_dec : EqDecision event.
Proof. solve_decision. Defined.

(** ** The file system *)

(** What a path resolves to.  A regular file carries its bytes, whether it
    may be opened for reading, and optionally the number of [read] calls
    that succeed before the device reports an error.  [Dangling] is a
    directory entry whose target cannot be stat'ed (a broken symbolic
    link): the walker lists it, [getsize] fails on it. *)
Inductive node :=
| File (content : list byte) (readable : bool) (bad_read : option nat)
| Dir
| Dangling.

Global Instance byte_eq_dec : EqDecision byte := Byte.byte_eq_dec.

Global Instance node_eq_dec : EqDecision node.
Proof. solve_decision. Defined.

Record datetime := DateTime {
  year : nat; month : nat; day : nat;
  hour : nat; minute : nat; second : nat
}.

(** The state of the world: the file system, keyed by path exactly as the
    program spells it; the number of clock readings taken so far; and the
    chronological trace of observable events. *)
Record world := World {
  fs : gmap string node;
  ticks : nat;
  trace : list event
}.

Definition with_fs (w : world) (m : gmap string node) : world :=
  World m (ticks w) (trace w).

(** ** A state-and-exception monad for Python statements *)

Inductive outcome (A : Type) :=
| Ret (a : A)
| Raise (e : exn).
Arguments Ret {A} a.
Arguments Raise {A} e.

Definition M (A : Type) : Type := world → outcome A * world.

Global Instance M_ret : MRet M := λ A a w, (Ret a, w).

Global Instance M_bind : MBind M := λ A B f m w,
  match m w with
  | (Ret a, w') => f a w'
  | (Raise e, w') => (Raise e, w')
  end.

Definition raise {A} (e : exn) : M A := λ w, (Raise e, w).

(** [try: body except <class> as e: handler e] *)
Definition try_except {A} (body : M A) (catches : exn → bool)
    (handler : exn → M A) : M A := λ w,
  match body w with
  | (Raise e, w') => if catches e then handler e w' else (Raise e, w')
  | r => r
  end.

Definition emit (e : event) : M unit := λ w,
  (Ret tt, World (fs w) (ticks w) (trace w ++ [e])).

Definition print (m : message) : M unit := emit (Print m).

Definition read_fs : M (gmap string node) := λ w, (Ret (fs w), w).

Definition write_fs (m : gmap string node) : M unit := λ w,
  (Ret tt, with_fs w m).

(** [for x in l: st = body x st] *)
Fixpoint for_each {A S} (l : list A) (body : A → S → M S) (st : S) : M S :=
  match l with
  | [] => mret st
  | x :: l' => st' ← body x st; for_each l' body st'
  end.

Definition is_dir_node (n : node) : bool :=
  match n with
  | Dir => true
  | _ => false
  end.

(** ** os, os.path *)

Module os.

(** [os.path.exists]: follows links, so a dangling entry does not exist. *)
Definition path_exists (path : string) : M bool :=
  m ← read_fs;
  mret (match m !! path with
        | Some (File _ _ _) | Some Dir => true
        | Some Dangling | None => false
        end).

Definition path_isdir (path : string) : M bool :=
  m ← read_fs;
  mret (match m !! path with
        | Some n => is_dir_node n
        | None => false
        end).

(** [os.path.getsize]: the byte length of a regular file.  A directory
    reports the size of its own block; the scan never asks for it. *)
Definition path_getsize (path : string) : M nat :=
  m ← read_fs;
  match m !! path with
  | Some (File content _ _) => mret (length content)
  | Some Dir => mret 4096
  | Some Dangling | None => raise (FileNotFoundError path)
  end.

(** [os.remove] *)
Definition remove (path : string) : M unit :=
  m ← read_fs;
  match m !! path with
  | Some Dir => raise (IsADirectoryError path)
  | Some _ => write_fs (delete path m);; emit (Unlink path)
  | None => raise (FileNotFoundError path)
  end.

(** [os.mkdir]: the parent named by the path must be a directory; a path
    without a directory part lives in the current directory. *)
Definition mkdir (path : string) : M unit :=
  m ← read_fs;
  match m !! path with
  | Some _ => raise (FileExistsError path)
  | None =>
      let head := (posixpath.split path).1 in
      if bool_decide (head = "") then
        write_fs (<[path := Dir]> m);; emit (Mkdir path)
      else
        match m !! head with
        | Some Dir => write_fs (<[path := Dir]> m);; emit (Mkdir path)
        | Some _ => raise (NotADirectoryError path)
        | None => raise (FileNotFoundError path)
        end
  end.

(** [os.makedirs(name)] with [exist_ok=False]: create the missing
    ancestors, then the leaf.  The recursion follows the directory part,
    which is strictly shorter than the name. *)
Fixpoint makedirs_from (fuel : nat) (name : string) : M unit :=
  match fuel with
  | 0 => mkdir name
  | S fuel' =>
      let '(head, tail) := posixpath.split name in
      let '(head, tail) :=
        if bool_decide (tail = "") then posixpath.split head
        else (head, tail) in
      (if bool_decide (head ≠ "") && bool_decide (tail ≠ "") then
         ex ← path_exists head;
         if ex : bool then (mret tt : M unit)
         else try_except (makedirs_from fuel' head) is_FileExistsError
                (λ _, mret tt)
       else (mret tt : M unit));;
      mkdir name
  end.

Definition makedirs (name : string) : M unit :=
  makedirs_from (String.length name) name.

(** The directory a name is looked up in: [top] followed by a separator
    unless it is empty or already ends with one. *)
Definition dir_prefix (top : string) : string := posixpath.join top "".

(** [k] names a direct entry of [top]: it is [join top name] for a
    non-empty [name] without separator. *)
Definition child_name (top k : string) : option string :=
  name ← posixpath.strip_prefix (dir_prefix top) k;
  if bool_decide (name = "") || posixpath.has_sep name then None
  else Some name.

(** [os.scandir(top)]: the entries of a directory, in the order the file
    system returns them. *)
Definition scandir (m : gmap string node) (top : string)
    : list (string * node) :=
  omap (λ kn : string * node, name ← child_name top kn.1; Some (name, kn.2))
       (map_to_list m).

(** [os.walk(top)] with its defaults (top-down, errors of [scandir]
    ignored): one triple per directory, parents first.  [fuel] bounds the
    nesting depth. *)
Fixpoint walk_from (fuel : nat) (m : gmap string node) (top : string)
    : list (string * list string * list string) :=
  match fuel with
  | 0 => []
  | S fuel' =>
      match m !! top with
      | Some Dir =>
          let entries := scandir m top in
          let dirs := (filter (λ e, is_dir_node e.2) entries).*1 in
          let nondirs := (filter (λ e, ¬ is_dir_node e.2) entries).*1 in
          (top, dirs, nondirs)
            :: (dirs ≫= λ d, walk_from fuel' m (posixpath.join top d))
      | _ => []
      end
  end.

(** No directory nests deeper than the longest path is long. *)
Definition depth_bound (m : gmap string node) : nat :=
  S (max_list (String.length <$> (map_to_list m).*1)).

Definition walk (top : string)
    : M (list (string * list string * list string)) :=
  m ← read_fs;
  mret (walk_from (depth_bound m) m top).

(** Where a path of the tree rooted at [src] lands when that tree is
    renamed to [dst]. *)
Definition retarget (src dst k : string) : string :=
  if bool_decide (k = src) then dst
  else match posixpath.strip_prefix (dir_prefix src) k with
       | Some rest => dir_prefix dst +:+ rest
       | None => k
       end.

(** [os.rename] on a POSIX system. *)
Definition rename (src dst : string) : M unit :=
  m ← read_fs;
  match m !! src with
  | None => raise (FileNotFoundError src)
  | Some n =>
      let head := (posixpath.split dst).1 in
      match (if bool_decide (head = "") then Some Dir else m !! head) with
      | None => raise (FileNotFoundError dst)
      | Some (File _ _ _) | Some Dangling => raise (NotADirectoryError dst)
      | Some Dir =>
          if bool_decide (src = dst) then mret tt
          else if is_dir_node n then
            if bool_decide
                 (is_Some (posixpath.strip_prefix (dir_prefix src) dst))
            then raise (OSError "EINVAL" src)
            else
              match m !! dst with
              | Some Dir =>
                  if bool_decide (scandir m dst = []) then
                    write_fs (kmap (retarget src dst) (delete dst m));;
                    emit (Rename src dst)
                  else raise (OSError "ENOTEMPTY" dst)
              | Some _ => raise (NotADirectoryError dst)
              | None =>
                  write_fs (kmap (retarget src dst) m);;
                  emit (Rename src dst)
              end
          else
            match m !! dst with
            | Some Dir => raise (IsADirectoryError dst)
            | _ => write_fs (<[dst := n]> (delete src m));;
                   emit (Rename src dst)
            end
      end
  end.

End os.

(** ** Binary file objects *)

Record file_obj := FileObj {
  f_name : string;
  f_rest : list byte;
  f_bad : option nat
}.

(** [open(path, 'rb')] *)
Definition open_rb (path : string) : M file_obj :=
  emit (Open path);;
  m ← read_fs;
  match m !! path with
  | Some (File content true bad) => mret (FileObj path content bad)
  | Some (File _ false _) => raise (PermissionError path)
  | Some Dir => raise (IsADirectoryError path)
  | Some Dangling | None => raise (FileNotFoundError path)
  end.

(** [f.read(size)]: at most [size] bytes from the current position, the
    empty chunk at end of file. *)
Definition file_read (size : nat) (f : file_obj)
    : exn + (list byte * file_obj) :=
  match f_bad f with
  | Some 0 => inl (OSError "EIO" (f_name f))
  | bad => inr (take size (f_rest f),
                FileObj (f_name f) (drop size (f_rest f)) (pred <$> bad))
  end.

Definition chunk_size : nat := 8192.

Definition inspect {A} (a : A) : {b | a = b} := exist _ a eq_refl.

(** [while chunk := f.read(8192): hasher.update(chunk)].  The hasher is
    represented by the bytes fed to it so far: by the contract of hashlib,
    successive [update] calls amount to one call on the concatenation. *)
Equations? read_loop (f : file_obj) (hasher : list byte) : exn + list byte
  by wf (length (f_rest f)) lt :=
  read_loop f hasher with inspect (file_read chunk_size f) := {
    | exist _ (inl e) _ => inl e
    | exist _ (inr ([], _)) _ => inr hasher
    | exist _ (inr (b :: chunk, f')) H =>
        read_loop f' (hasher ++ b :: chunk) }.
Proof.
  clear read_loop. unfold file_read in H.
  destruct f as [name rest bad]; simpl in *.
  destruct bad as [[|k]|]; try discriminate;
    injection H as H1 H2; subst f'; simpl;
    rewrite length_drop; destruct rest; try discriminate; simpl;
    unfold chunk_size; lia.
Qed.

Definition lift_sum {A} (r : exn + A) : M A :=
  match r with
  | inl e => raise e
  | inr a => mret a
  end.

(** ** shutil *)

Module shutil.

Definition _basename (path : string) : string :=
  posixpath.basename (posixpath.rstrip_sep path).

Definition _destinsrc (src dst : string) : bool :=
  let src := if posixpath.endswith_sep src then src else src +:+ "/" in
  let dst := if posixpath.endswith_sep dst then dst else dst +:+ "/" in
  bool_decide (is_Some (posixpath.strip_prefix src dst)).

(** [shutil.move(src, dst)]; the result is the path moved to, or nothing
    when [src] and [dst] are the same directory. *)
Definition move (src dst : string) : M (option string) :=
  d ← os.path_isdir dst;
  if d && bool_decide (src = dst) then
    os.rename src dst;; mret None
  else
    real_dst ←
      (if d then
         let real_dst := posixpath.join dst (_basename src) in
         ex ← os.path_exists real_dst;
         if ex : bool then
           raise (shutil_Error
                    ("Destination path '" +:+ real_dst +:+ "' already exists"))
         else mret real_dst
       else mret dst);
    try_except (os.rename src real_dst) is_OSError (λ e,
      m ← read_fs;
      match m !! src with
      | Some Dangling => raise e
      | Some Dir =>
          if _destinsrc src dst then
            raise (shutil_Error
                     ("Cannot move a directory '" +:+ src
                        +:+ "' into itself '" +:+ dst +:+ "'."))
          else
            os.makedirs real_dst;;
            m' ← read_fs;
            write_fs (kmap (os.retarget src real_dst) (delete real_dst m'));;
            emit (Rename src real_dst)
      | Some (File _ _ _) | None =>
          _ ← open_rb src; raise e
      end);;
    mret (Some real_dst).

End shutil.

(** ** datetime *)

Definition digit (n : nat) : ascii := ascii_of_nat (48 + n mod 10).

Definition pad2 (n : nat) : string :=
  String (digit (n / 10)) (String (digit n) "").

Definition pad4 (n : nat) : string :=
  String (digit (n / 1000)) (String (digit (n / 100)) (pad2 n)).

(** [t.strftime("%Y%m%d_%H%M%S")] *)
Definition strftime (t : datetime) : string :=
  pad4 (year t) +:+ pad2 (month t) +:+ pad2 (day t) +:+ "_"
    +:+ pad2 (hour t) +:+ pad2 (minute t) +:+ pad2 (second t).

(** ** The program *)

Abbreviation index := (gmap nat (gmap (option string) string)).
Abbreviation pairs := (list (string * string)).

Section program.

(** [hashlib_new alg data]: the hex digest that the hasher
    [hashlib.new(alg)] returns once fed [data]. *)
Variable hashlib_new : string → list byte → string.

(** [clock k]: what the [k]-th call of [datetime.now()] returns. *)
Variable clock : nat → datetime.

(** [datetime.now()] *)
Definition datetime_now : M datetime := λ w,
  (Ret (clock (ticks w)), World (fs w) (S (ticks w)) (trace w)).

(** [get_file_hash(filepath, hash_algorithm='sha256')], lines 6-15.  The
    algorithm names are those hashlib provides: on any other name
    [hashlib.new] raises [ValueError] before the file is touched. *)
Definition get_file_hash (filepath : string) (hash_algorithm : string)
    : M (option string) :=
  let hexdigest := hashlib_new hash_algorithm in
  try_except
    (f ← open_rb filepath;
     fed ← lift_sum (read_loop f []);
     mret (Some (hexdigest fed)))
    is_OSError
    (λ e, print (ReadErrorMsg e);; mret None).

(** The body of the inner loop of [find_duplicate_files], lines 26-39, on
    the pair [(file_hashes, duplicates)] of the function's two local
    variables.  The test [current_hash is not None and current_hash in
    file_hashes[file_size]] selects the first branch; the [else] of the
    source serves both a new fingerprint and a failed one. *)
Definition classify (full_path : string) (st : index * pairs)
    : M (index * pairs) :=
  let '(file_hashes, duplicates) := st in
  try_except
    (file_size ← os.path_getsize full_path;
     match file_hashes !! file_size with
     | Some bucket =>
         current_hash ← get_file_hash full_path "sha256";
         match (if bool_decide (current_hash ≠ None)
                then bucket !! current_hash else None) with
         | Some original =>
             mret (file_hashes, duplicates ++ [(full_path, original)])
         | None =>
             mret ((<[file_size := <[current_hash := full_path]> bucket]>
                      file_hashes),
                   duplicates)
         end
     | None =>
         h ← get_file_hash full_path "sha256";
         mret ((<[file_size := {[h := full_path]}]> file_hashes), duplicates)
     end)
    is_OSError
    (λ e, print (AccessErrorMsg e);; mret st).

(** The two nested loops, lines 22-24. *)
Definition scan (triples : list (string * list string * list string))
    (st : index * pairs) : M (index * pairs) :=
  for_each triples (λ '(dirpath, _, filenames) st,
    for_each filenames (λ filename st,
      classify (posixpath.join dirpath filename) st) st) st.

(** [find_duplicate_files(directory)], lines 17-41. *)
Definition find_duplicate_files (directory : string) : M pairs :=
  print (ScanStartMsg directory);;
  triples ← os.walk directory;
  st ← scan triples (∅, []);
  mret st.2.

(** The body of the loop of [manage_duplicate_files], lines 51-70: each
    element of [duplicates] is unpacked as [(path1, path2)]. *)
Definition dispose (action : string) (i : nat) (pair : string * string)
    : M unit :=
  let '(path1, path2) := pair in
  print (PairHeaderMsg (i + 1));;
  print (OriginalLabelMsg path1);;
  print (DuplicateLabelMsg path2);;
  if bool_decide (action = "delete") then
    try_except (os.remove path2;; print (DeletedMsg path2))
      is_OSError (λ e, print (DeleteErrorMsg e))
  else if bool_decide (action = "move") then
    now ← datetime_now;
    let timestamp := strftime now in
    let move_dir := "duplicates_" +:+ timestamp in
    ex ← os.path_exists move_dir;
    (if ex : bool then mret tt else os.makedirs move_dir);;
    try_except
      (shutil.move path2
         (posixpath.join move_dir (posixpath.basename path2));;
       print (MovedMsg move_dir))
      is_shutil_Error (λ e, print (MoveErrorMsg e))
  else mret tt.

(** [manage_duplicate_files(duplicates, action)], lines 43-70. *)
Definition manage_duplicate_files (duplicates : pairs) (action : string)
    : M unit :=
  if bool_decide (duplicates = []) then print NoDuplicatesMsg
  else
    print (TotalPairsMsg (length duplicates));;
    for_each (imap (λ i p, (i, p)) duplicates)
      (λ '(i, p) _, dispose action i p) tt.

End program.

(** * Properties *)

(** ** Running monadic code *)

Ltac run :=
  repeat (progress (unfold mbind, M_bind, mret, M_ret, raise, try_except,
                      print, emit, read_fs, write_fs, with_fs, lift_sum; simpl)).

Lemma for_each_app {A S} (l1 l2 : list A) (body : A → S → M S) (st : S) :
  for_each (l1 ++ l2) body st = (st' ← for_each l1 body st; for_each l2 body st').
Proof.
  revert st. induction l1 as [|x l1 IH]; intros st; simpl.
  - run. reflexivity.
  - run. apply functional_extensionality. intros w.
    destruct (body x st w) as [[st'|e] w']; [|reflexivity].
    rewrite IH. reflexivity.
Qed.

Lemma for_each_map {A B S} (g : A → B) (l : list A) (body : B → S → M S)
    (st : S) (w : world) :
  for_each (g <$> l) body st w = for_each l (λ x, body (g x)) st w.
Proof.
  revert st w. induction l as [|x l IH]; intros st w; simpl; [reflexivity|].
  run. destruct (body (g x) st w) as [[st'|e] w']; [apply IH|reflexivity].
Qed.

(** ** The read loop *)

Lemma chunk_size_pos : 0 < chunk_size.
Proof. unfold chunk_size. apply Nat.ltb_lt. vm_compute. reflexivity. Qed.

Global Opaque chunk_size.

Lemma read_loop_step f hasher :
  read_loop f hasher =
    match file_read chunk_size f with
    | inl e => inl e
    | inr ([], _) => inr hasher
    | inr (b :: chunk, f') => read_loop f' (hasher ++ b :: chunk)
    end.
Proof.
  rewrite read_loop_equation_1. unfold inspect.
  cut (∀ r (H : file_read chunk_size f = r),
         read_loop_unfold_clause_1 f (r ↾ H) hasher =
         match r with
         | inl e => inl e
         | inr ([], _) => inr hasher
         | inr (b :: chunk, f') => read_loop f' (hasher ++ b :: chunk)
         end).
  { intros Hc. apply Hc. }
  intros [e|[[|b c] f']] H; reflexivity.
Qed.

(** Every chunk handed to the hasher holds at most [chunk_size] bytes. *)
Lemma file_read_bounded size f chunk f' :
  file_read size f = inr (chunk, f') → length chunk ≤ size.
Proof.
  unfold file_read. destruct (f_bad f) as [[|k]|]; intros H; simplify_eq;
    rewrite length_take; lia.
Qed.

(** A device that fails after [k] successful reads interrupts the loop iff
    the loop needs more than [k] reads: one per started chunk, and the
    final empty one. *)
Definition reads_fail (bad : option nat) (len : nat) : Prop :=
  match bad with
  | Some k => k * chunk_size < len + chunk_size
  | None => False
  end.

Global Instance reads_fail_dec bad len : Decision (reads_fail bad len).
Proof. destruct bad; simpl; apply _. Defined.

Lemma take_drop_chunk_cons (b : byte) rest :
  take chunk_size (b :: rest) = b :: take (chunk_size - 1) rest ∧
  drop chunk_size (b :: rest) = drop (chunk_size - 1) rest.
Proof.
  pose proof chunk_size_pos as Hpos.
  destruct chunk_size as [|c]; [lia|]. simpl. by rewrite Nat.sub_0_r.
Qed.

Lemma read_loop_spec name rest bad hasher :
  read_loop (FileObj name rest bad) hasher =
    if decide (reads_fail bad (length rest)) then inl (OSError "EIO" name)
    else inr (hasher ++ rest).
Proof.
  remember (length rest) as n eqn:Hn.
  revert rest bad hasher Hn.
  induction n as [n IH] using lt_wf_ind; intros rest bad hasher ->.
  rewrite read_loop_step. unfold file_read; simpl.
  pose proof chunk_size_pos as Hpos.
  destruct bad as [[|k]|]; simpl.
  - rewrite decide_True; [reflexivity|simpl; lia].
  - destruct rest as [|b rest].
    + rewrite take_nil. rewrite decide_False; [by rewrite app_nil_r|].
      simpl. lia.
    + destruct (take_drop_chunk_cons b rest) as [-> ->].
      rewrite (IH (length (drop (chunk_size - 1) rest)));
        [|rewrite length_drop; simpl; lia|done].
      rewrite length_drop. rewrite <- app_assoc. simpl.
      rewrite take_drop.
      destruct (decide _) as [H1|H1], (decide _) as [H2|H2];
        try reflexivity; exfalso; simpl in *; destruct k; simpl in *; lia.
  - destruct rest as [|b rest].
    + rewrite take_nil. by rewrite app_nil_r.
    + destruct (take_drop_chunk_cons b rest) as [-> ->].
      rewrite (IH (length (drop (chunk_size - 1) rest)));
        [|rewrite length_drop; simpl; lia|done].
      simpl. rewrite <- app_assoc. simpl. by rewrite take_drop.
Qed.

(** ** The fingerprint computation *)

(** What opening a path and reading it to the end yields. *)
Definition read_result (m : gmap string node) (path : string)
    : exn + list byte :=
  match m !! path with
  | Some (File content true bad) =>
      if decide (reads_fail bad (length content))
      then inl (OSError "EIO" path) else inr content
  | Some (File _ false _) => inl (PermissionError path)
  | Some Dir => inl (IsADirectoryError path)
  | Some Dangling | None => inl (FileNotFoundError path)
  end.

Definition hash_events (m : gmap string node) (path : string) : list event :=
  match read_result m path with
  | inl e => [Print (ReadErrorMsg e)]
  | inr _ => []
  end.

Section fingerprint.

Variable hashlib_new : string → list byte → string.

Lemma get_file_hash_run filepath alg w :
  get_file_hash hashlib_new filepath alg w =
    (Ret (match read_result (fs w) filepath with
          | inr content => Some (hashlib_new alg content)
          | inl _ => None
          end),
     World (fs w) (ticks w)
       (trace w ++ Open filepath :: hash_events (fs w) filepath)).
Proof.
  unfold get_file_hash, open_rb, hash_events, read_result. run.
  destruct (fs w !! filepath) as [[content [|] bad| |]|]; simpl;
    rewrite <- ?app_assoc; try reflexivity.
  rewrite read_loop_spec. simpl.
  destruct (decide _); simpl; rewrite <- ?app_assoc; reflexivity.
Qed.

(** C9. For every path, [get_file_hash] returns normally: either the
    digest of the file's full content, fed to the hasher in chunks of at
    most 8192 bytes, or [None] when the file cannot be opened or a read
    fails, in which case the error is printed.  No exception leaves the
    function and the file system is not modified. *)
Theorem get_file_hash_typed_outcome filepath alg w :
  ∃ r evs,
    get_file_hash hashlib_new filepath alg w =
      (Ret r, World (fs w) (ticks w) (trace w ++ Open filepath :: evs)) ∧
    match fs w !! filepath with
    | Some (File content true bad) =>
        if decide (reads_fail bad (length content))
        then r = None ∧
             evs = [Print (ReadErrorMsg (OSError "EIO" filepath))]
        else r = Some (hashlib_new alg content) ∧ evs = []
    | Some (File _ false _) =>
        r = None ∧ evs = [Print (ReadErrorMsg (PermissionError filepath))]
    | Some Dir =>
        r = None ∧ evs = [Print (ReadErrorMsg (IsADirectoryError filepath))]
    | Some Dangling | None =>
        r = None ∧ evs = [Print (ReadErrorMsg (FileNotFoundError filepath))]
    end ∧
    (∀ f chunk f', file_read chunk_size f = inr (chunk, f') →
                   length chunk ≤ chunk_size) ∧
    chunk_size = 8192.
Proof.
  eexists _, _. split_and!; [apply get_file_hash_run| |..].
  - unfold hash_events, read_result.
    destruct (fs w !! filepath) as [[content [|] bad| |]|]; simpl; auto.
    destruct (decide _); auto.
  - intros f chunk f'. apply file_read_bounded.
  - vm_compute. reflexivity.
Qed.

End fingerprint.

(** ** The detector *)

(** The size [os.path.getsize] reports for a path, if it reports one. *)
Definition size_of (m : gmap string node) (path : string) : option nat :=
  match (os.path_getsize path (World m 0 [])).1 with
  | Ret s => Some s
  | Raise _ => None
  end.

Lemma getsize_run path w :
  os.path_getsize path w =
    (match size_of (fs w) path with
     | Some s => Ret s
     | None => Raise (FileNotFoundError path)
     end, w).
Proof.
  unfold size_of, os.path_getsize. run.
  destruct (fs w !! path) as [[]|]; reflexivity.
Qed.

(** The files of a walk, in the order the nested loops visit them. *)
Definition walk_files (triples : list (string * list string * list string))
    : list string :=
  triples ≫= λ t, posixpath.join t.1.1 <$> t.2.

Definition walk_paths (m : gmap string node) (directory : string)
    : list string :=
  walk_files (os.walk_from (os.depth_bound m) m directory).

(** [file_hashes[size][hash]], when both keys are present. *)
Definition entry (file_hashes : index) (size : nat) (hash : option string)
    : option string :=
  file_hashes !! size ≫= (.!! hash).

Section detector.

Variable hashlib_new : string → list byte → string.

(** The fingerprint [get_file_hash] returns for a path. *)
Definition hash_of (m : gmap string node) (path : string) : option string :=
  match (get_file_hash hashlib_new path "sha256" (World m 0 [])).1 with
  | Ret h => h
  | Raise _ => None
  end.

(** A path is classified when both its size and its fingerprint were
    obtained. *)
Definition key_of (m : gmap string node) (path : string)
    : option (nat * string) :=
  s ← size_of m path; h ← hash_of m path; Some (s, h).

Lemma hash_run path w :
  get_file_hash hashlib_new path "sha256" w =
    (Ret (hash_of (fs w) path),
     World (fs w) (ticks w) (trace w ++ Open path :: hash_events (fs w) path)).
Proof.
  unfold hash_of. rewrite !get_file_hash_run. reflexivity.
Qed.

Definition classify_events (m : gmap string node) (path : string)
    : list event :=
  match size_of m path with
  | Some _ => Open path :: hash_events m path
  | None => [Print (AccessErrorMsg (FileNotFoundError path))]
  end.

(** The effect of one iteration on the two local variables. *)
Definition next_state (m : gmap string node) (st : index * pairs)
    (path : string) : index * pairs :=
  match size_of m path with
  | None => st
  | Some s =>
      let h := hash_of m path in
      match st.1 !! s with
      | Some bucket =>
          match h ≫= (λ _, bucket !! h) with
          | Some original => (st.1, st.2 ++ [(path, original)])
          | None => (<[s := <[h := path]> bucket]> st.1, st.2)
          end
      | None => (<[s := {[h := path]}]> st.1, st.2)
      end
  end.

Lemma classify_run path st w :
  classify hashlib_new path st w =
    (Ret (next_state (fs w) st path),
     World (fs w) (ticks w) (trace w ++ classify_events (fs w) path)).
Proof.
  destruct st as [file_hashes duplicates].
  unfold classify, next_state, classify_events, try_except.
  unfold mbind at 1, M_bind at 1. rewrite getsize_run.
  destruct (size_of (fs w) path) as [s|]; simpl; [|reflexivity].
  destruct (file_hashes !! s) as [bucket|];
    unfold mbind, M_bind; rewrite hash_run; simpl.
  - destruct (hash_of (fs w) path) as [h|]; simpl.
    + destruct (bucket !! Some h); reflexivity.
    + reflexivity.
  - reflexivity.
Qed.

Lemma paths_run l st w :
  for_each l (classify hashlib_new) st w =
    (Ret (foldl (next_state (fs w)) st l),
     World (fs w) (ticks w) (trace w ++ (l ≫= classify_events (fs w)))).
Proof.
  revert st w. induction l as [|p l IH]; intros st w; simpl.
  - rewrite app_nil_r. by destruct w.
  - unfold mbind at 1, M_bind at 1. rewrite classify_run, IH. simpl.
    by rewrite <- app_assoc.
Qed.

Lemma scan_run triples st w :
  scan hashlib_new triples st w =
    for_each (walk_files triples) (classify hashlib_new) st w.
Proof.
  unfold scan. revert st w.
  induction triples as [|[[dirpath dirs] filenames] ts IH]; intros st w;
    [reflexivity|].
  unfold walk_files. rewrite bind_cons. simpl. rewrite for_each_app.
  unfold mbind, M_bind. rewrite for_each_map.
  destruct (for_each filenames _ st w) as [[st'|e] w']; [|reflexivity].
  apply IH.
Qed.

(** The two local variables when the loops end. *)
Definition final_state (m : gmap string node) (l : list string)
    : index * pairs :=
  foldl (next_state m) (∅, []) l.

Lemma find_run directory w :
  find_duplicate_files hashlib_new directory w =
    (Ret (final_state (fs w) (walk_paths (fs w) directory)).2,
     World (fs w) (ticks w)
       (trace w ++ Print (ScanStartMsg directory)
          :: (walk_paths (fs w) directory ≫= classify_events (fs w)))).
Proof.
  unfold find_duplicate_files, os.walk. run.
  rewrite scan_run, paths_run. simpl.
  by rewrite <- app_assoc.
Qed.

End detector.

(** ** What the loops compute *)

Lemma head_filter_snoc {A} (P : A → Prop) `{!∀ x, Decision (P x)}
    (l : list A) (x : A) :
  head (filter P (l ++ [x])) =
    match head (filter P l) with
    | Some y => Some y
    | None => if decide (P x) then Some x else None
    end.
Proof.
  rewrite filter_app. destruct (filter P l) as [|y l'] eqn:E; simpl.
  - rewrite filter_cons, filter_nil. by destruct (decide (P x)).
  - reflexivity.
Qed.

Lemma entry_insert (file_hashes : index) s0 bucket s h :
  entry (<[s0 := bucket]> file_hashes) s h =
    if decide (s0 = s) then bucket !! h else entry file_hashes s h.
Proof.
  unfold entry. rewrite lookup_insert. by destruct (decide (s0 = s)).
Qed.

Section first_seen.

Variable hashlib_new : string → list byte → string.
Variable m : gmap string node.

Local Abbreviation key := (key_of hashlib_new m).
Local Abbreviation state := (final_state hashlib_new m).

(** The first path of [l] classified under the key [k]. *)
Definition first_of (k : nat * string) (l : list string) : option string :=
  head (filter (λ q, key q = Some k) l).

(** The pair a path gives rise to when the paths [seen] came before it. *)
Definition new_pair (seen : list string) (p : string) : pairs :=
  match key p with
  | Some k =>
      match first_of k seen with
      | Some original => [(p, original)]
      | None => []
      end
  | None => []
  end.

Lemma state_snoc l p : state (l ++ [p]) = next_state hashlib_new m (state l) p.
Proof. unfold final_state. by rewrite foldl_app. Qed.

Lemma first_of_snoc k l p :
  first_of k (l ++ [p]) =
    match first_of k l with
    | Some y => Some y
    | None => if decide (key p = Some k) then Some p else None
    end.
Proof. unfold first_of. by rewrite head_filter_snoc. Qed.

(** First seen wins: under every (size, fingerprint) key the index holds
    the first path classified with that key. *)
Lemma index_first_seen l s h :
  entry (state l).1 s (Some h) = first_of (s, h) l.
Proof.
  revert s h. induction l as [|p l IH] using rev_ind; intros s h.
  - reflexivity.
  - rewrite state_snoc, first_of_snoc, <- IH.
    unfold next_state, key_of.
    destruct (size_of m p) as [s0|]; simpl;
      [|by destruct (entry _ s (Some h))].
    destruct ((state l).1 !! s0) as [bucket|] eqn:Hb.
    + destruct (hash_of hashlib_new m p) as [h0|] eqn:Hh; simpl.
      * destruct (bucket !! Some h0) as [o|] eqn:Ho; simpl.
        -- destruct (entry _ s (Some h)) eqn:He; [done|].
           rewrite decide_False; [done|]. intros [= -> ->].
           unfold entry in He. rewrite Hb in He. simpl in He. congruence.
        -- rewrite entry_insert. destruct (decide (s0 = s)) as [->|Hs].
           ++ unfold entry. rewrite Hb. simpl.
              rewrite lookup_insert.
              destruct (decide (Some h0 = Some h)) as [[= ->]|Hne].
              ** rewrite Ho. by rewrite decide_True.
              ** destruct (bucket !! Some h); [done|].
                 rewrite decide_False; [done|congruence].
           ++ destruct (entry _ s (Some h)); [done|].
              rewrite decide_False; [done|congruence].
      * rewrite entry_insert. destruct (decide (s0 = s)) as [->|Hs].
        -- unfold entry. rewrite Hb. simpl.
           rewrite lookup_insert_ne by done.
           by destruct (bucket !! Some h).
        -- by destruct (entry _ s (Some h)).
    + simpl. rewrite entry_insert. destruct (decide (s0 = s)) as [->|Hs].
      * unfold entry. rewrite Hb. simpl.
        destruct (hash_of hashlib_new m p) as [h0|]; simpl.
        -- rewrite lookup_singleton.
           destruct (decide (Some h0 = Some h)) as [[= ->]|Hne].
           ++ by rewrite decide_True.
           ++ rewrite decide_False; [done|congruence].
        -- by rewrite lookup_singleton_ne.
      * destruct (entry _ s (Some h)); [done|].
        destruct (hash_of hashlib_new m p); simpl; [|done].
        rewrite decide_False; [done|congruence].
Qed.

(** Each path adds at most one pair, formed with the first path seen
    under its key. *)
Lemma dups_snoc l p : (state (l ++ [p])).2 = (state l).2 ++ new_pair l p.
Proof.
  rewrite state_snoc. unfold new_pair, next_state, key_of.
  destruct (size_of m p) as [s0|]; simpl; [|by rewrite app_nil_r].
  destruct (hash_of hashlib_new m p) as [h0|] eqn:Hh; simpl.
  - rewrite <- index_first_seen. unfold entry.
    destruct ((state l).1 !! s0) as [bucket|]; simpl.
    + by destruct (bucket !! Some h0); simpl; rewrite ?app_nil_r.
    + by rewrite app_nil_r.
  - destruct ((state l).1 !! s0); simpl; by rewrite app_nil_r.
Qed.

End first_seen.

(** ** The list of pairs *)

Section duplicates.

Variable hashlib_new : string → list byte → string.
Variable m : gmap string node.

Local Abbreviation key := (key_of hashlib_new m).
Local Abbreviation first := (first_of hashlib_new m).
Local Abbreviation fresh := (new_pair hashlib_new m).

(** The list [duplicates] once the paths [l] have been classified. *)
Definition dups (l : list string) : pairs := (final_state hashlib_new m l).2.

Lemma dups_nil : dups [] = [].
Proof. reflexivity. Qed.

Lemma dups_app_one l p : dups (l ++ [p]) = dups l ++ fresh l p.
Proof. apply dups_snoc. Qed.

Lemma first_of_app k l1 l2 :
  first k (l1 ++ l2) =
    match first k l1 with
    | Some o => Some o
    | None => first k l2
    end.
Proof.
  unfold first_of. rewrite filter_app.
  by destruct (filter _ l1).
Qed.

Lemma first_of_None k l : first k l = None ↔ ∀ q, q ∈ l → key q ≠ Some k.
Proof.
  unfold first_of. split.
  - intros H q Hq Hk.
    assert (q ∈ filter (λ q, key q = Some k) l) as Hin
      by (by apply list_elem_of_filter).
    destruct (filter _ l); [by apply not_elem_of_nil in Hin|done].
  - intros H. destruct (filter _ l) as [|q l'] eqn:E; [done|].
    assert (q ∈ filter (λ q, key q = Some k) l) as Hin
      by (rewrite E; left).
    apply list_elem_of_filter in Hin as [Hk Hq]. by destruct (H q).
Qed.

(** The first path under a key: it has that key, and no path before it
    has. *)
Lemma first_of_Some k l o :
  first k l = Some o ↔
  ∃ l1 l2, l = l1 ++ o :: l2 ∧ key o = Some k ∧ first k l1 = None.
Proof.
  split.
  - induction l as [|q l IH]; [done|].
    unfold first_of. rewrite filter_cons.
    destruct (decide (key q = Some k)) as [Hq|Hq]; simpl.
    + intros [= ->]. by exists [], l.
    + intros H. destruct (IH H) as (l1 & l2 & -> & Ho & Hn).
      exists (q :: l1), l2. split_and!; [done..|].
      unfold first_of. rewrite filter_cons, decide_False by done. exact Hn.
  - intros (l1 & l2 & -> & Ho & Hn). rewrite first_of_app, Hn.
    unfold first_of. by rewrite filter_cons, decide_True.
Qed.

Lemma first_of_elem k l o : first k l = Some o → o ∈ l ∧ key o = Some k.
Proof.
  intros (l1 & l2 & -> & Ho & _)%first_of_Some. split; [|done].
  apply elem_of_app. right. left.
Qed.

Lemma fresh_elem seen p d o :
  (d, o) ∈ fresh seen p ↔
  d = p ∧ ∃ k, key p = Some k ∧ first k seen = Some o.
Proof.
  unfold new_pair. destruct (key p) as [k|]; simpl.
  - destruct (first k seen) as [o'|] eqn:Ho.
    + rewrite list_elem_of_singleton. split.
      * intros [= -> ->]. eauto.
      * intros (-> & k' & [= <-] & Ho'). congruence.
    + split; [by intros ?%not_elem_of_nil|].
      intros (-> & k' & [= <-] & Ho'). congruence.
  - split; [by intros ?%not_elem_of_nil|]. by intros (_ & k' & ? & _).
Qed.

(** A pair relates a path to the first path seen before it under the
    same key. *)
Lemma dups_elem l d o :
  (d, o) ∈ dups l ↔
  ∃ l1 l2 k, l = l1 ++ d :: l2 ∧ key d = Some k ∧ first k l1 = Some o.
Proof.
  induction l as [|p l IH] using rev_ind.
  - rewrite dups_nil. split; [by intros ?%not_elem_of_nil|].
    intros (l1 & l2 & k & H & _). by destruct l1.
  - rewrite dups_app_one, elem_of_app, IH, fresh_elem. split.
    + intros [(l1 & l2 & k & -> & Hk & Ho)|(-> & k & Hk & Ho)].
      * exists l1, (l2 ++ [p]), k. by rewrite <- app_assoc.
      * by exists l, [], k.
    + intros (l1 & l2 & k & Hl & Hk & Ho).
      destruct l2 as [|q l2 _] using rev_ind.
      * apply app_inj_tail in Hl as [-> ->]. right. eauto.
      * rewrite app_comm_cons, app_assoc in Hl.
        apply app_inj_tail in Hl as [-> ->]. left. by exists l1, l2, k.
Qed.

Lemma dups_first l d o :
  (d, o) ∈ dups l →
  ∃ k, key d = Some k ∧ key o = Some k ∧ first k l = Some o.
Proof.
  intros (l1 & l2 & k & -> & Hk & Ho)%dups_elem. exists k.
  split_and!; [done|by apply first_of_elem in Ho as [_ ?]|].
  by rewrite first_of_app, Ho.
Qed.

Lemma dups_fst_elem l d : d ∈ (dups l).*1 → d ∈ l.
Proof.
  intros ([d' o] & -> & (l1 & l2 & k & -> & _)%dups_elem)%list_elem_of_fmap.
  apply elem_of_app. right. left.
Qed.

Lemma dups_snd_elem l o : o ∈ (dups l).*2 → o ∈ l.
Proof.
  intros ([d o'] & -> & (k & _ & _ & Ho)%dups_first)%list_elem_of_fmap.
  by apply first_of_elem in Ho as [? _].
Qed.

End duplicates.

Lemma filter_ext_elem {A} (P Q : A → Prop) `{!∀ x, Decision (P x)}
    `{!∀ x, Decision (Q x)} (l : list A) :
  (∀ x, x ∈ l → P x ↔ Q x) → filter P l = filter Q l.
Proof.
  induction l as [|x l IH]; intros Hext; [done|].
  rewrite !filter_cons.
  assert (P x ↔ Q x) as Hx by (apply Hext; left).
  rewrite IH by (intros y Hy; apply Hext; by right).
  destruct (decide (P x)), (decide (Q x)); tauto.
Qed.

Lemma filter_none {A} (P : A → Prop) `{!∀ x, Decision (P x)} (l : list A) :
  (∀ x, x ∈ l → ¬ P x) → filter P l = [].
Proof.
  induction l as [|x l IH]; intros Hno; [done|].
  rewrite filter_cons, decide_False by (apply Hno; left).
  apply IH. intros y Hy. apply Hno. by right.
Qed.

Lemma size_of_lookup m path :
  size_of m path =
    match m !! path with
    | Some (File content _ _) => Some (length content)
    | Some Dir => Some 4096
    | Some Dangling | None => None
    end.
Proof.
  unfold size_of, os.path_getsize. run.
  by destruct (m !! path) as [[]|].
Qed.

Section groups.

Variable hashlib_new : string → list byte → string.
Variable m : gmap string node.

Local Abbreviation key := (key_of hashlib_new m).
Local Abbreviation first := (first_of hashlib_new m).
Local Abbreviation fresh := (new_pair hashlib_new m).
Local Abbreviation dups := (dups hashlib_new m).
Local Abbreviation state := (final_state hashlib_new m).

Lemma hash_of_read path :
  hash_of hashlib_new m path =
    match read_result m path with
    | inr content => Some (hashlib_new "sha256" content)
    | inl _ => None
    end.
Proof. unfold hash_of. by rewrite get_file_hash_run. Qed.

(** A file read in full is classified by its length and its digest. *)
Lemma key_of_content path content :
  read_result m path = inr content →
  key path = Some (length content, hashlib_new "sha256" content).
Proof.
  intros H. unfold key_of. rewrite hash_of_read, H, size_of_lookup.
  unfold read_result in H.
  destruct (m !! path) as [[c [|] bad| |]|]; try done.
  destruct (decide _); [done|]. by simplify_eq.
Qed.

(** The pairs whose duplicate side has a given key: one for every path
    of that key but the first, all pointing at the first. *)
Lemma dups_group k l :
  filter (λ pr, key pr.1 = Some k) (dups l) =
    match filter (λ q, key q = Some k) l with
    | [] => []
    | g0 :: gs => (λ d, (d, g0)) <$> gs
    end.
Proof.
  induction l as [|p l IH] using rev_ind; [done|].
  rewrite dups_app_one, !filter_app, IH. clear IH.
  rewrite filter_cons, filter_nil. unfold new_pair, first_of.
  destruct (decide (key p = Some k)) as [Hp|Hp].
  - rewrite Hp. destruct (filter (λ q, key q = Some k) l) as [|g0 gs]; simpl.
    + done.
    + rewrite filter_cons, filter_nil; simpl. rewrite decide_True by done.
      by rewrite fmap_app.
  - rewrite app_nil_r.
    replace (filter (λ pr, key pr.1 = Some k) _) with (@nil (string * string)).
    { by rewrite app_nil_r. }
    destruct (key p) as [k'|] eqn:Hk; [|done].
    destruct (head _); [|done].
    rewrite filter_cons, filter_nil; simpl. rewrite Hk. by rewrite decide_False.
Qed.

(** Paths that are not classified leave no mark on the list of pairs. *)
Lemma dups_only_classified (Q : string → Prop) `{!∀ q, Decision (Q q)} l :
  (∀ q, is_Some (key q) → Q q) → dups l = dups (filter Q l).
Proof.
  intros HQ. induction l as [|p l IH] using rev_ind; [done|].
  rewrite filter_app, filter_cons, filter_nil, dups_app_one, IH.
  assert (∀ k, first k l = first k (filter Q l)) as Hfirst.
  { intros k. unfold first_of. rewrite list_filter_filter. f_equal.
    apply filter_ext_elem. intros q _. split; [|tauto].
    intros Hq. split; [done|]. apply HQ. by rewrite Hq. }
  destruct (decide (Q p)) as [Hp|Hp].
  - rewrite dups_app_one. f_equal. unfold new_pair.
    destruct (key p); [|done]. by rewrite Hfirst.
  - rewrite app_nil_r. unfold new_pair.
    destruct (key p) as [k|] eqn:Hk; [|by rewrite app_nil_r].
    destruct Hp. apply HQ. by rewrite Hk.
Qed.

(** Under the null fingerprint of a size the index keeps the last path of
    that size whose fingerprint failed. *)
Lemma index_failed_last l s :
  entry (state l).1 s None =
    last (filter (λ q, size_of m q = Some s ∧ hash_of hashlib_new m q = None) l).
Proof.
  revert s. induction l as [|p l IH] using rev_ind; intros s; [done|].
  rewrite state_snoc, filter_app, filter_cons, filter_nil.
  unfold next_state.
  destruct (size_of m p) as [s0|] eqn:Hs.
  2:{ rewrite decide_False by (by intros [? _]). by rewrite app_nil_r. }
  destruct (hash_of hashlib_new m p) as [h0|] eqn:Hh.
  - rewrite decide_False by (by intros [_ ?]). rewrite app_nil_r, <- IH.
    destruct ((state l).1 !! s0) as [bucket|] eqn:Hb; simpl.
    + destruct (bucket !! Some h0); simpl; [done|].
      rewrite entry_insert. destruct (decide (s0 = s)) as [->|]; [|done].
      unfold entry. rewrite Hb; simpl. by rewrite lookup_insert_ne.
    + rewrite entry_insert. destruct (decide (s0 = s)) as [->|]; [|done].
      unfold entry. rewrite Hb; simpl. by rewrite lookup_singleton_ne.
  - destruct (decide (Some s0 = Some s ∧ None = None)) as [[[= ->] _]|Hne].
    + rewrite last_snoc.
      destruct ((state l).1 !! s) as [bucket|] eqn:Hb; simpl;
        rewrite entry_insert, decide_True by done.
      * by rewrite lookup_insert_eq.
      * by rewrite lookup_singleton_eq.
    + rewrite app_nil_r, <- IH.
      assert (s0 ≠ s) by (intros ->; by destruct Hne).
      destruct ((state l).1 !! s0) as [bucket|] eqn:Hb; simpl;
        by rewrite entry_insert, decide_False.
Qed.

(** In a walk without repetition a path is the duplicate side of the one
    pair it gave rise to, if any. *)
Lemma dups_of_path l1 p l2 :
  NoDup (l1 ++ p :: l2) →
  filter (λ pr, pr.1 = p) (dups (l1 ++ p :: l2)) = fresh l1 p.
Proof.
  intros Hnd. induction l2 as [|q l2 IH] using rev_ind.
  - rewrite dups_app_one, filter_app.
    apply NoDup_app in Hnd as (_ & Hp & _).
    replace (filter (λ pr, pr.1 = p) (dups l1)) with (@nil (string * string)).
    + simpl. unfold new_pair. destruct (key p); [|done].
      destruct (first _ l1); [|done].
      by rewrite filter_cons, filter_nil, decide_True.
    + symmetry. apply filter_none.
      intros [d o] Hin Hd. simpl in Hd. subst d.
      apply (Hp p); [|left].
      apply (dups_fst_elem hashlib_new m), list_elem_of_fmap.
      by exists (p, o).
  - rewrite app_comm_cons, app_assoc in Hnd |- *.
    rewrite dups_app_one, filter_app, IH.
    2:{ by apply NoDup_app in Hnd as (? & _ & _). }
    replace (filter (λ pr, pr.1 = p) (fresh _ q)) with (@nil (string * string));
      [by rewrite app_nil_r|].
    assert (q ≠ p) as Hqp.
    { intros ->. apply NoDup_app in Hnd as (_ & Hd & _).
      apply (Hd p); [|left]. apply elem_of_app. right. left. }
    unfold new_pair. destruct (key q); [|done].
    destruct (first _ _); [|done].
    by rewrite filter_cons, filter_nil, decide_False.
Qed.

End groups.

(** ** Facts about paths *)

Section path_facts.

Import posixpath.

Local Arguments String.append !_ _ / : simpl nomatch.

Lemma string_app_nil_r s : s +:+ "" = s.
Proof. induction s; simpl; congruence. Qed.

Lemma string_app_assoc a b c : (a +:+ b) +:+ c = a +:+ (b +:+ c).
Proof. induction a; simpl; congruence. Qed.

Lemma string_app_length a b :
  String.length (a +:+ b) = String.length a + String.length b.
Proof. induction a; simpl; congruence. Qed.

Lemma has_sep_app a b : has_sep (a +:+ b) = has_sep a || has_sep b.
Proof. induction a; simpl; [done|]. by rewrite IHa, orb_assoc. Qed.

Lemma strip_prefix_Some pre p r :
  strip_prefix pre p = Some r ↔ p = pre +:+ r.
Proof.
  revert p. induction pre as [|a pre IH]; intros p; simpl.
  - split; congruence.
  - destruct p as [|b p]; [done|].
    destruct (bool_decide_reflect (a = b)) as [->|Hab].
    + rewrite IH. split; congruence.
    + split; congruence.
Qed.

Lemma endswith_sep_app a b :
  b ≠ "" → endswith_sep (a +:+ b) = endswith_sep b.
Proof.
  intros Hb. induction a as [|c a IH]; simpl; [done|].
  rewrite IH. destruct (a +:+ b) eqn:E; [|done].
  destruct a, b; done.
Qed.

Lemma endswith_sep_has_sep s : endswith_sep s = true → has_sep s = true.
Proof.
  induction s as [|c s IH]; simpl; [done|].
  destruct s; [by intros ->|]. intros H. rewrite IH by done.
  apply orb_true_r.
Qed.

Lemma startswith_sep_has_sep s : has_sep s = false → startswith_sep s = false.
Proof. destruct s; simpl; [done|]. by intros [? _]%orb_false_elim. Qed.

(** The prefix under which the entries of a directory are named. *)
Lemma dir_prefix_eq top :
  os.dir_prefix top =
    if bool_decide (top = "") || endswith_sep top then top else top +:+ "/".
Proof.
  unfold os.dir_prefix, join; simpl.
  destruct (_ || _); by rewrite ?string_app_nil_r.
Qed.

Lemma dir_prefix_shape top :
  os.dir_prefix top = "" ∨ endswith_sep (os.dir_prefix top) = true.
Proof.
  rewrite dir_prefix_eq.
  destruct (bool_decide_reflect (top = "")) as [->|Hne]; simpl; [by left|].
  right. destruct (endswith_sep top) eqn:E; [done|].
  by rewrite endswith_sep_app.
Qed.

Lemma join_name top name :
  has_sep name = false → join top name = os.dir_prefix top +:+ name.
Proof.
  intros Hn. unfold join. rewrite (startswith_sep_has_sep name Hn).
  rewrite dir_prefix_eq. destruct (_ || _); [done|].
  by rewrite string_app_assoc.
Qed.

Lemma child_name_Some top k name :
  os.child_name top k = Some name ↔
  k = os.dir_prefix top +:+ name ∧ name ≠ "" ∧ has_sep name = false.
Proof.
  unfold os.child_name. split.
  - destruct (strip_prefix _ k) as [r|] eqn:E; simpl; [|done].
    apply strip_prefix_Some in E.
    destruct (bool_decide_reflect (r = "")); simpl; [done|].
    destruct (has_sep r) eqn:Hs; [done|]. by intros [= <-].
  - intros (-> & Hne & Hs).
    rewrite (proj2 (strip_prefix_Some _ _ name)) by done. simpl.
    by rewrite bool_decide_false, Hs.
Qed.

Lemma child_name_join top k name :
  os.child_name top k = Some name → join top name = k.
Proof.
  intros (-> & _ & Hs)%child_name_Some. by apply join_name.
Qed.

(** The directory part of an entry's path is the prefix of the directory
    that lists it. *)
Lemma dirpart_no_sep name : has_sep name = false → dirpart name = "".
Proof. destruct name; simpl; [done|]. by intros ->. Qed.

Lemma dirpart_entry pre name :
  pre = "" ∨ endswith_sep pre = true →
  has_sep name = false → dirpart (pre +:+ name) = pre.
Proof.
  intros Hpre Hn. induction pre as [|c pre IH]; simpl.
  - by apply dirpart_no_sep.
  - destruct Hpre as [|Hpre]; [done|].
    replace (is_sep c || has_sep (pre +:+ name)) with true.
    2:{ symmetry. apply endswith_sep_has_sep in Hpre. simpl in Hpre.
        rewrite has_sep_app.
        destruct (is_sep c); [done|]. simpl in *. by rewrite Hpre. }
    f_equal. apply IH. destruct pre; [by left|by right].
Qed.

Lemma entry_path_inj top1 top2 n1 n2 :
  has_sep n1 = false → has_sep n2 = false →
  os.dir_prefix top1 +:+ n1 = os.dir_prefix top2 +:+ n2 →
  os.dir_prefix top1 = os.dir_prefix top2 ∧ n1 = n2.
Proof.
  intros H1 H2 Heq.
  assert (os.dir_prefix top1 = os.dir_prefix top2) as Hpre.
  { rewrite <- (dirpart_entry _ n1 (dir_prefix_shape top1) H1), Heq.
    by apply dirpart_entry; [apply dir_prefix_shape|]. }
  split; [done|]. rewrite Hpre in Heq. by apply (inj _) in Heq.
Qed.

(** The prefix of a subdirectory extends that of its parent. *)
Lemma dir_prefix_child top name :
  name ≠ "" → has_sep name = false →
  os.dir_prefix (join top name) = os.dir_prefix top +:+ name +:+ "/".
Proof.
  intros Hne Hs. rewrite (join_name _ _ Hs), (dir_prefix_eq (_ +:+ _)).
  rewrite endswith_sep_app by done.
  replace (endswith_sep name) with false.
  2:{ destruct (endswith_sep name) eqn:E; [|done].
      apply endswith_sep_has_sep in E. congruence. }
  rewrite bool_decide_false; [simpl; by rewrite string_app_assoc|].
  destruct (os.dir_prefix top), name; done.
Qed.

Lemma sep_split_inj d1 d2 r1 r2 :
  has_sep d1 = false → has_sep d2 = false →
  d1 +:+ "/" +:+ r1 = d2 +:+ "/" +:+ r2 → d1 = d2.
Proof.
  revert d2. induction d1 as [|c d1 IH]; intros [|c' d2]; simpl; try done.
  - intros _ [Hc _]%orb_false_elim [= <- _]. done.
  - intros [Hc _]%orb_false_elim _ [= -> _]. done.
  - intros [_ H1]%orb_false_elim [_ H2]%orb_false_elim [= -> Heq].
    f_equal. by apply IH.
Qed.

End path_facts.

(** ** Facts about the walk *)

Lemma NoDup_fst_filter {A B} (P : A * B → Prop) `{!∀ x, Decision (P x)}
    (l : list (A * B)) :
  NoDup l.*1 → NoDup (filter P l).*1.
Proof.
  induction l as [|x l IH]; [done|].
  rewrite fmap_cons, NoDup_cons. intros [Hx Hl].
  rewrite filter_cons. destruct (decide (P x)); [|by apply IH].
  rewrite fmap_cons, NoDup_cons. split; [|by apply IH].
  intros (y & Hy & [_ Hin]%list_elem_of_filter)%list_elem_of_fmap.
  apply Hx, list_elem_of_fmap. by exists y.
Qed.

Lemma NoDup_fmap_elem_inj {A B} (f : A → B) (l : list A) x y :
  NoDup (f <$> l) → x ∈ l → y ∈ l → f x = f y → x = y.
Proof.
  induction l as [|z l IH]; [by intros _ ?%not_elem_of_nil|].
  rewrite fmap_cons, NoDup_cons. intros [Hz Hl].
  intros [->|Hx]%elem_of_cons [->|Hy]%elem_of_cons Hf; [done|..].
  - destruct Hz. rewrite Hf. apply list_elem_of_fmap. by exists y.
  - destruct Hz. rewrite <- Hf. apply list_elem_of_fmap. by exists x.
  - by apply IH.
Qed.

Lemma fmap_bind_list {A B C} (f : B → C) (g : A → list B) (l : list A) :
  f <$> (l ≫= g) = l ≫= λ x, f <$> g x.
Proof.
  induction l as [|x l IH]; [done|].
  by rewrite !bind_cons, fmap_app, IH.
Qed.

Section walk_facts.

Variable m : gmap string node.

Definition subdirs (top : string) : list string :=
  (filter (λ e, is_dir_node e.2) (os.scandir m top)).*1.

Definition nondirs (top : string) : list string :=
  (filter (λ e, ¬ is_dir_node e.2) (os.scandir m top)).*1.

Lemma walk_from_S fuel top :
  os.walk_from (S fuel) m top =
    match m !! top with
    | Some Dir =>
        (top, subdirs top, nondirs top)
          :: (subdirs top ≫= λ d, os.walk_from fuel m (posixpath.join top d))
    | _ => []
    end.
Proof. reflexivity. Qed.

Lemma scandir_elem top name n :
  (name, n) ∈ os.scandir m top ↔
  ∃ k, m !! k = Some n ∧ os.child_name top k = Some name.
Proof.
  unfold os.scandir. rewrite list_elem_of_omap. split.
  - intros ([k n'] & Hk%elem_of_map_to_list & H). simpl in H.
    destruct (os.child_name top k) as [name'|] eqn:E; simplify_eq/=.
    by exists k.
  - intros (k & Hk & Hc). exists (k, n).
    split; [by apply elem_of_map_to_list|]. simpl. by rewrite Hc.
Qed.

Lemma scandir_names_nodup top : NoDup (os.scandir m top).*1.
Proof.
  unfold os.scandir.
  pose proof (NoDup_fst_map_to_list m) as Hnd.
  induction (map_to_list m) as [|[k n] l IH]; [constructor|].
  rewrite fmap_cons, NoDup_cons in Hnd. destruct Hnd as [Hk Hl].
  simpl. destruct (os.child_name top k) as [name|] eqn:E; simpl;
    [|by apply IH].
  apply NoDup_cons. split; [|by apply IH].
  intros ([name' n'] & -> & ([k' n''] & Hin & H)%list_elem_of_omap)
    %list_elem_of_fmap.
  simpl in H. destruct (os.child_name top k') as [x|] eqn:E'; simplify_eq/=.
  apply child_name_Some in E as (-> & _), E' as (-> & _).
  apply Hk, list_elem_of_fmap. by eexists (_, _).
Qed.

Lemma listed_name top name :
  name ∈ subdirs top ∨ name ∈ nondirs top →
  name ≠ "" ∧ posixpath.has_sep name = false.
Proof.
  unfold subdirs, nondirs.
  intros [H|H]; apply list_elem_of_fmap in H as ([x n] & -> & H);
    apply list_elem_of_filter in H as [_ H];
    apply scandir_elem in H as (k & _ & H);
    by apply child_name_Some in H as (_ & ? & ?).
Qed.

(** Every triple of a walk lists a directory below the root of the walk,
    with its subdirectories and its other entries. *)
Lemma walk_from_elem fuel top t :
  t ∈ os.walk_from fuel m top →
  t = (t.1.1, subdirs t.1.1, nondirs t.1.1) ∧
  (t.1.1 = top ∨
   ∃ d r, d ∈ subdirs top ∧
     os.dir_prefix t.1.1 = os.dir_prefix top +:+ d +:+ "/" +:+ r).
Proof.
  revert top. induction fuel as [|fuel IH]; intros top;
    [by intros ?%not_elem_of_nil|].
  rewrite walk_from_S. destruct (m !! top) as [[]|];
    try by intros ?%not_elem_of_nil.
  intros [->|(d & Ht & Hd)%list_elem_of_bind]%elem_of_cons; [by auto|].
  destruct (IH _ Ht) as [Heq Hpre]. split; [done|]. right.
  destruct (listed_name top d (or_introl Hd)) as [Hne Hs].
  exists d. destruct Hpre as [->|(d' & r & Hd' & ->)].
  - exists "". split; [done|].
    by rewrite dir_prefix_child, string_app_nil_r.
  - exists (d' +:+ "/" +:+ r). split; [done|].
    rewrite dir_prefix_child by done.
    by rewrite !string_app_assoc.
Qed.

Lemma walk_tops_nodup fuel top :
  NoDup ((λ t, os.dir_prefix t.1.1) <$> os.walk_from fuel m top).
Proof.
  revert top. induction fuel as [|fuel IH]; intros top; [constructor|].
  rewrite walk_from_S. destruct (m !! top) as [[]|]; try apply NoDup_nil_2.
  rewrite fmap_cons. apply NoDup_cons. split.
  - intros (t & Heq & (d & Ht & Hd)%list_elem_of_bind)%list_elem_of_fmap.
    simpl in Heq.
    destruct (listed_name top d (or_introl Hd)) as [Hne Hs].
    apply walk_from_elem in Ht as [_ Hpre].
    assert (∃ r, os.dir_prefix t.1.1
                   = os.dir_prefix top +:+ d +:+ "/" +:+ r) as [r Hr].
    { destruct Hpre as [->|(d' & r & _ & ->)].
      - exists "". by rewrite dir_prefix_child, string_app_nil_r.
      - exists (d' +:+ "/" +:+ r). rewrite dir_prefix_child by done.
        by rewrite !string_app_assoc. }
    rewrite Hr in Heq. apply (f_equal String.length) in Heq.
    rewrite !string_app_length in Heq. destruct d; [done|].
    simpl in Heq. lia.
  - rewrite fmap_bind_list. apply NoDup_bind.
    + intros d1 d2 y Hd1 Hd2.
      intros (t1 & -> & Ht1)%list_elem_of_fmap
             (t2 & Heq & Ht2)%list_elem_of_fmap.
      destruct (listed_name top d1 (or_introl Hd1)) as [Hne1 Hs1].
      destruct (listed_name top d2 (or_introl Hd2)) as [Hne2 Hs2].
      assert (∀ d t, d ∈ subdirs top →
                t ∈ os.walk_from fuel m (posixpath.join top d) →
                ∃ r, os.dir_prefix t.1.1
                       = os.dir_prefix top +:+ d +:+ "/" +:+ r) as Hext.
      { intros d t Hd Ht.
        destruct (listed_name top d (or_introl Hd)) as [Hne Hs].
        apply walk_from_elem in Ht as [_ [->|(d' & r & _ & ->)]].
        - exists "". by rewrite dir_prefix_child, string_app_nil_r.
        - exists (d' +:+ "/" +:+ r). rewrite dir_prefix_child by done.
          by rewrite !string_app_assoc. }
      destruct (Hext _ _ Hd1 Ht1) as [r1 Hr1].
      destruct (Hext _ _ Hd2 Ht2) as [r2 Hr2].
      rewrite Hr1, Hr2 in Heq. apply (inj _) in Heq.
      by apply sep_split_inj in Heq.
    + intros d _. apply IH.
    + apply NoDup_fst_filter, scandir_names_nodup.
Qed.

Lemma walk_files_nodup fuel top :
  NoDup (walk_files (os.walk_from fuel m top)).
Proof.
  unfold walk_files. apply NoDup_bind.
  - intros t1 t2 y Ht1 Ht2.
    intros (n1 & -> & Hn1)%list_elem_of_fmap
           (n2 & Heq & Hn2)%list_elem_of_fmap.
    pose proof (walk_from_elem _ _ _ Ht1) as [E1 _].
    pose proof (walk_from_elem _ _ _ Ht2) as [E2 _].
    rewrite E1 in Hn1. rewrite E2 in Hn2. simpl in *.
    destruct (listed_name _ _ (or_intror Hn1)) as [_ Hs1].
    destruct (listed_name _ _ (or_intror Hn2)) as [_ Hs2].
    rewrite !join_name in Heq by done.
    apply entry_path_inj in Heq as [Hpre _]; [|done..].
    by apply (NoDup_fmap_elem_inj _ _ _ _ (walk_tops_nodup fuel top)).
  - intros t Ht. pose proof (walk_from_elem _ _ _ Ht) as [E _].
    rewrite E. simpl. apply NoDup_fmap_2_strong.
    + intros n1 n2 Hn1 Hn2 Heq.
      destruct (listed_name _ _ (or_intror Hn1)) as [_ Hs1].
      destruct (listed_name _ _ (or_intror Hn2)) as [_ Hs2].
      rewrite !join_name in Heq by done. by apply (inj _) in Heq.
    + apply NoDup_fst_filter, scandir_names_nodup.
  - eapply NoDup_fmap_1, walk_tops_nodup.
Qed.

End walk_facts.

(** The walk visits no path twice. *)
Lemma walk_paths_nodup m directory : NoDup (walk_paths m directory).
Proof. apply walk_files_nodup. Qed.

(** The depth bound of [os.walk] is never reached: the walk satisfies the
    recursive equation of the generator it models. *)
Section walk_depth.

Variable m : gmap string node.

Lemma key_length_bound k n :
  m !! k = Some n → String.length k < os.depth_bound m.
Proof.
  intros Hk. unfold os.depth_bound. apply Nat.lt_succ_r.
  apply max_list_elem_of_le, list_elem_of_fmap. exists k. split; [done|].
  apply list_elem_of_fmap. exists (k, n).
  split; [done|by apply elem_of_map_to_list].
Qed.

Lemma walk_from_stable f1 f2 top :
  os.depth_bound m ≤ f1 + String.length top →
  os.depth_bound m ≤ f2 + String.length top →
  os.walk_from f1 m top = os.walk_from f2 m top.
Proof.
  revert f2 top. induction f1 as [|f1 IH]; intros f2 top H1 H2.
  - destruct f2 as [|f2]; [done|]. rewrite walk_from_S.
    destruct (m !! top) as [n|] eqn:Hk; [|done].
    apply key_length_bound in Hk. simpl in H1. lia.
  - destruct f2 as [|f2].
    + rewrite walk_from_S. destruct (m !! top) as [n|] eqn:Hk; [|done].
      apply key_length_bound in Hk. simpl in H2. lia.
    + rewrite !walk_from_S. destruct (m !! top) as [[]|]; try done.
      f_equal. apply Forall_bind_ext, Forall_forall. intros d Hd.
      destruct (listed_name m top d (or_introl Hd)) as [Hne Hs].
      assert (String.length top < String.length (posixpath.join top d)).
      { rewrite join_name, dir_prefix_eq by done.
        destruct (_ || _); rewrite !string_app_length;
          destruct d; simpl; try done; lia. }
      apply IH; lia.
Qed.

Theorem walk_unfold top :
  os.walk_from (os.depth_bound m) m top =
    match m !! top with
    | Some Dir =>
        (top, subdirs m top, nondirs m top)
          :: (subdirs m top ≫= λ d,
                os.walk_from (os.depth_bound m) m (posixpath.join top d))
    | _ => []
    end.
Proof.
  unfold os.depth_bound at 1. rewrite walk_from_S.
  destruct (m !! top) as [[]|]; try done.
  f_equal. apply Forall_bind_ext, Forall_forall. intros d Hd.
  destruct (listed_name m top d (or_introl Hd)) as [Hne Hs].
  apply walk_from_stable; [|lia].
  rewrite join_name, string_app_length by done.
  unfold os.depth_bound. destruct d; simpl; [done|lia].
Qed.

End walk_depth.

(** * The claims about the detector *)

(** The local variables [file_hashes] and [duplicates] of
    [find_duplicate_files directory] when its loops end. *)
Definition locals_at_end (hashlib_new : string → list byte → string)
    (directory : string) (w : world) : outcome (index * pairs) :=
  ((triples ← os.walk directory; scan hashlib_new triples (∅, [])) w).1.

Lemma locals_run hashlib_new directory w :
  locals_at_end hashlib_new directory w =
    Ret (final_state hashlib_new (fs w) (walk_paths (fs w) directory)).
Proof.
  unfold locals_at_end, os.walk. run. by rewrite scan_run, paths_run.
Qed.

(** The path holds exactly the bytes [content] and can be read in full. *)
Definition holds (m : gmap string node) (content : list byte) (path : string)
    : Prop :=
  read_result m path = inr content.

Global Instance holds_dec m content path : Decision (holds m content path).
Proof. unfold holds. apply _. Defined.

(** A sample tree: three copies of one content, a file of another size, an
    unreadable file, a dangling entry and a subdirectory. *)
Definition sample_digest (alg : string) (data : list byte) : string :=
  String.string_of_list_byte data.

Definition sample_tree : gmap string node :=
  list_to_map
    [("d", Dir);
     ("d/a.txt", File (String.list_byte_of_string "hello") true None);
     ("d/b.txt", File (String.list_byte_of_string "hello") true None);
     ("d/c.txt", File (String.list_byte_of_string "world!") true None);
     ("d/u.txt", File (String.list_byte_of_string "hello") false None);
     ("d/sub", Dir);
     ("d/sub/e.txt", File (String.list_byte_of_string "hello") true None);
     ("d/sub/f.txt", File (String.list_byte_of_string "fresh") true None);
     ("d/sub/z", Dangling)].

Definition sample_world : world := World sample_tree 0 [].

Example sample_walk :
  walk_paths sample_tree "d" =
    ["d/c.txt"; "d/u.txt"; "d/a.txt"; "d/b.txt";
     "d/sub/e.txt"; "d/sub/f.txt"; "d/sub/z"].
Proof. vm_compute. reflexivity. Qed.

Example sample_scan :
  (find_duplicate_files sample_digest "d" sample_world).1 =
    Ret [("d/b.txt", "d/a.txt"); ("d/sub/e.txt", "d/a.txt")].
Proof. vm_compute. reflexivity. Qed.

(** C2. For the N files of a walk that hold one same content (and can be
    read), when no other walked file collides with their size and
    fingerprint, the detector emits exactly N-1 pairs with such a file on
    the duplicate side: one per file after the first, in walk order, each
    naming the first-discovered file as the original.  No pair names one of
    them as original for a file outside the group.  From the moment the
    first-discovered file has been classified to the end of the scan, the
    index holds it under their key: no later file replaces it. *)
Theorem identical_files_pair_with_first
    hashlib_new w directory content g0 rest :
  filter (holds (fs w) content) (walk_paths (fs w) directory) = g0 :: rest →
  (∀ p, p ∈ walk_paths (fs w) directory →
        key_of hashlib_new (fs w) p
          = Some (length content, hashlib_new "sha256" content) →
        holds (fs w) content p) →
  ∃ file_hashes duplicates w',
    find_duplicate_files hashlib_new directory w = (Ret duplicates, w') ∧
    locals_at_end hashlib_new directory w = Ret (file_hashes, duplicates) ∧
    filter (λ pr, holds (fs w) content pr.1) duplicates
      = (λ d, (d, g0)) <$> rest ∧
    length (filter (λ pr, holds (fs w) content pr.1) duplicates)
      = length (g0 :: rest) - 1 ∧
    (∀ d o, (d, o) ∈ duplicates →
            holds (fs w) content o → holds (fs w) content d) ∧
    entry file_hashes (length content) (Some (hashlib_new "sha256" content))
      = Some g0 ∧
    (∀ l1 l2, walk_paths (fs w) directory = l1 ++ l2 → g0 ∈ l1 →
       ∃ file_hashes1 duplicates1 w1,
         for_each l1 (classify hashlib_new) (∅, []) w
           = (Ret (file_hashes1, duplicates1), w1) ∧
         entry file_hashes1 (length content)
           (Some (hashlib_new "sha256" content)) = Some g0).
Proof.
  intros Hgroup Hfree.
  set (m := fs w) in *. set (paths := walk_paths m directory) in *.
  set (k := (length content, hashlib_new "sha256" content)).
  assert (∀ p, p ∈ paths → holds m content p ↔ key_of hashlib_new m p = Some k)
    as Hiff.
  { intros p Hp. split; [apply (key_of_content hashlib_new)|by apply Hfree]. }
  assert (filter (λ p, key_of hashlib_new m p = Some k) paths = g0 :: rest)
    as Hkey.
  { rewrite <- Hgroup. symmetry. by apply filter_ext_elem. }
  destruct (final_state hashlib_new m paths) as [file_hashes duplicates] eqn:Hst.
  assert (dups hashlib_new m paths = duplicates) as Hd
    by (unfold dups; by rewrite Hst).
  exists file_hashes, duplicates. eexists.
  assert (filter (λ pr, holds m content pr.1) duplicates
            = (λ d, (d, g0)) <$> rest) as Hmain.
  { rewrite <- Hd.
    rewrite (filter_ext_elem _ (λ pr, key_of hashlib_new m pr.1 = Some k)).
    - by rewrite dups_group, Hkey.
    - intros [d o] Hin. apply Hiff. simpl.
      apply (dups_fst_elem hashlib_new m), list_elem_of_fmap. by exists (d, o). }
  split_and!.
  - rewrite find_run. fold m paths. by rewrite Hst.
  - rewrite locals_run. fold m paths. by rewrite Hst.
  - exact Hmain.
  - rewrite Hmain, length_fmap. simpl. lia.
  - intros d o Hin Ho. rewrite <- Hd in Hin.
    assert (d ∈ paths) as Hdin.
    { apply (dups_fst_elem hashlib_new m), list_elem_of_fmap. by exists (d, o). }
    apply dups_first in Hin as (k' & Hkd & Hko & _).
    apply (key_of_content hashlib_new) in Ho.
    apply Hiff; [done|]. unfold k. congruence.
  - replace file_hashes with (final_state hashlib_new m paths).1
      by (by rewrite Hst).
    rewrite index_first_seen. unfold first_of. fold k. by rewrite Hkey.
  - intros l1 l2 Hsplit Hin. rewrite paths_run. fold m.
    destruct (foldl _ _ l1) as [file_hashes1 duplicates1] eqn:Hst1.
    exists file_hashes1, duplicates1. eexists. split; [done|].
    replace file_hashes1 with (final_state hashlib_new m l1).1
      by (unfold final_state; by rewrite Hst1).
    rewrite index_first_seen. fold k.
    assert (first_of hashlib_new m k paths = Some g0) as Hfirst
      by (unfold first_of; by rewrite Hkey).
    rewrite Hsplit, first_of_app in Hfirst.
    destruct (first_of hashlib_new m k l1) as [o|] eqn:E; [done|].
    exfalso. apply (proj1 (first_of_None _ _ _ _) E g0 Hin).
    apply first_of_elem in Hfirst as [_ ?]. done.
Qed.

Ltac walked Hp :=
  simpl in Hp; rewrite sample_walk in Hp;
  repeat (apply elem_of_cons in Hp as [->|Hp]);
  try (by apply not_elem_of_nil in Hp).

Lemma identical_files_pair_with_first_witness :
  ∃ file_hashes duplicates w',
    find_duplicate_files sample_digest "d" sample_world = (Ret duplicates, w') ∧
    locals_at_end sample_digest "d" sample_world
      = Ret (file_hashes, duplicates) ∧
    filter (λ pr, holds sample_tree (String.list_byte_of_string "hello") pr.1)
        duplicates
      = (λ d, (d, "d/a.txt")) <$> ["d/b.txt"; "d/sub/e.txt"] ∧
    length
      (filter (λ pr, holds sample_tree (String.list_byte_of_string "hello") pr.1)
         duplicates)
      = length ["d/a.txt"; "d/b.txt"; "d/sub/e.txt"] - 1 ∧
    (∀ d o, (d, o) ∈ duplicates →
            holds sample_tree (String.list_byte_of_string "hello") o →
            holds sample_tree (String.list_byte_of_string "hello") d) ∧
    entry file_hashes 5 (Some "hello") = Some "d/a.txt" ∧
    (∀ l1 l2, walk_paths sample_tree "d" = l1 ++ l2 → "d/a.txt" ∈ l1 →
       ∃ file_hashes1 duplicates1 w1,
         for_each l1 (classify sample_digest) (∅, []) sample_world
           = (Ret (file_hashes1, duplicates1), w1) ∧
         entry file_hashes1 5 (Some "hello") = Some "d/a.txt").
Proof.
  apply (identical_files_pair_with_first sample_digest sample_world "d"
           (String.list_byte_of_string "hello") "d/a.txt"
           ["d/b.txt"; "d/sub/e.txt"]).
  - vm_compute. reflexivity.
  - intros p Hp. walked Hp; vm_compute; intros; try discriminate; reflexivity.
Defined.

(** The paths the scan opened, in order. *)
Definition opened (e : event) : option string :=
  match e with
  | Open path => Some path
  | _ => None
  end.

Lemma opened_classify_events m (l : list string) :
  omap opened (l ≫= classify_events m)
    = filter (λ p, is_Some (size_of m p)) l.
Proof.
  induction l as [|p l IH]; [done|].
  rewrite bind_cons, omap_app, IH, filter_cons. unfold classify_events.
  destruct (decide (is_Some (size_of m p))) as [[s Hs]|Hn].
  - rewrite Hs. simpl. unfold hash_events. by destruct (read_result m p).
  - destruct (size_of m p); [by destruct Hn|done].
Qed.

Definition single_tree : gmap string node :=
  list_to_map
    [("d", Dir);
     ("d/a.txt", File (String.list_byte_of_string "hello") true None)].

(** C3, as stated, fails: the only file of a directory is fingerprinted
    although no other file of its size exists. *)
Lemma first_file_of_a_size_is_hashed :
  ¬ (∀ p,
       Open p ∈ trace (find_duplicate_files sample_digest "d"
                         (World single_tree 0 [])).2 →
       ∃ q, q ≠ p ∧ q ∈ walk_paths single_tree "d" ∧
            size_of single_tree q = size_of single_tree p).
Proof.
  intros H. destruct (H "d/a.txt") as (q & Hne & Hq & _).
  - vm_compute. right. left.
  - vm_compute in Hq. apply elem_of_cons in Hq as [->|Hq]; [done|].
    by apply not_elem_of_nil in Hq.
Qed.

(** C3, amended. No pair relates two files of different size: both sides
    of every pair have the same size.  The scan fingerprints every path
    whose size it obtains, once and in walk order, the first file of a size
    included; the size only selects the bucket the fingerprint is looked up
    in.  Files of equal content have equal size, and the detector misses
    no true duplicate: a walked file that holds the bytes of a file walked
    before it is the duplicate side of a pair, whose original was walked
    before it and has that size and that fingerprint. *)
Theorem size_selects_bucket hashlib_new w directory :
  ∃ duplicates evs,
    find_duplicate_files hashlib_new directory w
      = (Ret duplicates, World (fs w) (ticks w) (trace w ++ evs)) ∧
    (∀ d o, (d, o) ∈ duplicates →
            is_Some (size_of (fs w) d) ∧ size_of (fs w) d = size_of (fs w) o) ∧
    omap opened evs
      = filter (λ p, is_Some (size_of (fs w) p)) (walk_paths (fs w) directory) ∧
    (∀ p q content, holds (fs w) content p → holds (fs w) content q →
                    size_of (fs w) p = size_of (fs w) q) ∧
    (∀ l1 q l2 p l3 content,
       walk_paths (fs w) directory = l1 ++ q :: l2 ++ p :: l3 →
       holds (fs w) content q → holds (fs w) content p →
       ∃ o, (p, o) ∈ duplicates ∧ o ∈ l1 ++ q :: l2 ∧
            size_of (fs w) o = Some (length content) ∧
            hash_of hashlib_new (fs w) o
              = Some (hashlib_new "sha256" content)).
Proof.
  eexists _, _. split_and!; [| | | |intros l1 q l2 p l3 content Hwalk Hq Hp].
  - apply find_run.
  - intros d o (k & Hd & Ho & _)%dups_first.
    unfold key_of in Hd, Ho.
    destruct (size_of (fs w) d) as [sd|]; [|done].
    destruct (size_of (fs w) o) as [so|]; [|done].
    simpl in *.
    destruct (hash_of hashlib_new (fs w) d), (hash_of hashlib_new (fs w) o);
      simplify_eq/=. done.
  - simpl. apply opened_classify_events.
  - intros p q content Hp Hq.
    apply (key_of_content hashlib_new) in Hp, Hq.
    unfold key_of in Hp, Hq.
    destruct (size_of (fs w) p), (size_of (fs w) q); simplify_eq/=;
      destruct (hash_of hashlib_new (fs w) p), (hash_of hashlib_new (fs w) q);
      by simplify_eq/=.
  - apply (key_of_content hashlib_new) in Hp, Hq.
    set (k := (length content, hashlib_new "sha256" content)) in *.
    destruct (first_of hashlib_new (fs w) k (l1 ++ q :: l2)) as [o|] eqn:Ho.
    + exists o. pose proof Ho as [Hin Hko]%first_of_elem.
      split_and!; [|done|..].
      * fold (dups hashlib_new (fs w) (walk_paths (fs w) directory)).
        apply dups_elem. exists (l1 ++ q :: l2), l3, k.
        by rewrite Hwalk, <- app_assoc.
      * unfold key_of in Hko.
        destruct (size_of (fs w) o); [|done].
        destruct (hash_of hashlib_new (fs w) o); by simplify_eq/=.
      * unfold key_of in Hko.
        destruct (size_of (fs w) o); [|done].
        destruct (hash_of hashlib_new (fs w) o); by simplify_eq/=.
    + exfalso. apply (proj1 (first_of_None _ _ _ _) Ho q); [|done].
      apply elem_of_app. right. left.
Qed.

(** C4. Two walked files of one size whose fingerprints differ are never
    paired with each other, and their fingerprints are distinct entries of
    the same size bucket.  The later file is inserted as a new entry of
    that bucket exactly when its fingerprint matches no file seen before
    it; otherwise it is paired with the file that fingerprint was first
    seen on. *)
Theorem same_size_distinct_content
    hashlib_new w directory l1 p1 l2 p2 l3 s h1 h2 :
  walk_paths (fs w) directory = l1 ++ p1 :: l2 ++ p2 :: l3 →
  key_of hashlib_new (fs w) p1 = Some (s, h1) →
  key_of hashlib_new (fs w) p2 = Some (s, h2) →
  h1 ≠ h2 →
  ∃ file_hashes duplicates w',
    find_duplicate_files hashlib_new directory w = (Ret duplicates, w') ∧
    locals_at_end hashlib_new directory w = Ret (file_hashes, duplicates) ∧
    ((p1, p2) ∉ duplicates) ∧ ((p2, p1) ∉ duplicates) ∧
    (∃ bucket, file_hashes !! s = Some bucket ∧
               is_Some (bucket !! Some h1) ∧ is_Some (bucket !! Some h2)) ∧
    match first_of hashlib_new (fs w) (s, h2) (l1 ++ p1 :: l2) with
    | None => entry file_hashes s (Some h2) = Some p2 ∧ p2 ∉ duplicates.*1
    | Some o => entry file_hashes s (Some h2) = Some o ∧ (p2, o) ∈ duplicates
    end.
Proof.
  intros Hwalk Hk1 Hk2 Hne.
  pose proof (walk_paths_nodup (fs w) directory) as Hnd.
  set (m := fs w) in *. set (paths := walk_paths m directory) in *.
  destruct (final_state hashlib_new m paths) as [file_hashes duplicates] eqn:Hst.
  assert (dups hashlib_new m paths = duplicates) as Hd
    by (unfold dups; by rewrite Hst).
  assert (∀ s' h', entry file_hashes s' (Some h')
                     = first_of hashlib_new m (s', h') paths) as Hidx.
  { intros s' h'. rewrite <- index_first_seen. by rewrite Hst. }
  assert (paths = (l1 ++ p1 :: l2) ++ p2 :: l3) as Hwalk2
    by (by rewrite Hwalk, <- app_assoc).
  assert (is_Some (first_of hashlib_new m (s, h1) paths)) as [o1 Ho1].
  { destruct (first_of hashlib_new m (s, h1) paths) eqn:E; [by eexists|].
    exfalso. eapply (proj1 (first_of_None _ _ _ _) E p1); [|done].
    rewrite Hwalk. apply elem_of_app. right. left. }
  assert (first_of hashlib_new m (s, h2) paths
          = match first_of hashlib_new m (s, h2) (l1 ++ p1 :: l2) with
            | Some o => Some o
            | None => Some p2
            end) as Ho2.
  { rewrite Hwalk2, first_of_app.
    destruct (first_of hashlib_new m (s, h2) (l1 ++ p1 :: l2)); [done|].
    unfold first_of. by rewrite filter_cons, decide_True. }
  exists file_hashes, duplicates. eexists. split_and!.
  - rewrite find_run. fold m paths. by rewrite Hst.
  - rewrite locals_run. fold m paths. by rewrite Hst.
  - rewrite <- Hd. intros (k & ? & ? & _)%dups_first. congruence.
  - rewrite <- Hd. intros (k & ? & ? & _)%dups_first. congruence.
  - pose proof (Hidx s h1) as E1. pose proof (Hidx s h2) as E2.
    rewrite Ho1 in E1. rewrite Ho2 in E2. unfold entry in E1, E2.
    destruct (file_hashes !! s) as [bucket|]; [|done]. simpl in *.
    exists bucket. split_and!; [done|by eexists|].
    rewrite E2. case_match; eauto.
  - rewrite Hidx, Ho2.
    destruct (first_of hashlib_new m (s, h2) (l1 ++ p1 :: l2)) as [o|] eqn:E.
    + split; [done|]. rewrite <- Hd. apply dups_elem.
      by exists (l1 ++ p1 :: l2), l3, (s, h2).
    + split; [done|]. intros ([d o] & -> & Hin)%list_elem_of_fmap.
      rewrite Hwalk2 in Hnd.
      pose proof (dups_of_path hashlib_new m _ _ _ Hnd) as Hf.
      rewrite <- Hwalk2, Hd in Hf. unfold new_pair in Hf.
      rewrite Hk2, E in Hf.
      assert ((d, o) ∈ filter (λ pr : string * string, pr.1 = d) duplicates)
        as Hin' by (by apply list_elem_of_filter).
      simpl in Hf. rewrite Hf in Hin'. by apply not_elem_of_nil in Hin'.
Qed.

Lemma same_size_distinct_content_witness :
  ∃ file_hashes duplicates w',
    find_duplicate_files sample_digest "d" sample_world = (Ret duplicates, w') ∧
    locals_at_end sample_digest "d" sample_world
      = Ret (file_hashes, duplicates) ∧
    (("d/a.txt", "d/sub/f.txt") ∉ duplicates) ∧
    (("d/sub/f.txt", "d/a.txt") ∉ duplicates) ∧
    (∃ bucket, file_hashes !! 5 = Some bucket ∧
               is_Some (bucket !! Some "hello") ∧
               is_Some (bucket !! Some "fresh")) ∧
    match first_of sample_digest (fs sample_world) (5, "fresh")
            (["d/c.txt"; "d/u.txt"] ++ "d/a.txt" :: ["d/b.txt"; "d/sub/e.txt"])
    with
    | None => entry file_hashes 5 (Some "fresh") = Some "d/sub/f.txt" ∧
              "d/sub/f.txt" ∉ duplicates.*1
    | Some o => entry file_hashes 5 (Some "fresh") = Some o ∧
                ("d/sub/f.txt", o) ∈ duplicates
    end.
Proof.
  apply (same_size_distinct_content sample_digest sample_world "d"
           ["d/c.txt"; "d/u.txt"] "d/a.txt" ["d/b.txt"; "d/sub/e.txt"]
           "d/sub/f.txt" ["d/sub/z"] 5 "hello" "fresh").
  - vm_compute. reflexivity.
  - vm_compute. reflexivity.
  - vm_compute. reflexivity.
  - discriminate.
Defined.

Lemma key_hash_some hashlib_new m p k :
  key_of hashlib_new m p = Some k →
  size_of m p = Some k.1 ∧ hash_of hashlib_new m p = Some k.2.
Proof.
  unfold key_of. destruct (size_of m p); [|done].
  destruct (hash_of hashlib_new m p); [|done]. simpl. by intros [= <-].
Qed.

(** C10. A classified path of the walk plays one role.  Either it is the
    entry of the index under its own key, it is an entry of the index
    nowhere else, and it is the duplicate side of no pair; or it is the
    duplicate side of exactly one pair, it is no entry of the index, and it
    is the original of no pair. *)
Theorem classified_path_single_role hashlib_new w directory p s h :
  p ∈ walk_paths (fs w) directory →
  key_of hashlib_new (fs w) p = Some (s, h) →
  ∃ file_hashes duplicates w',
    find_duplicate_files hashlib_new directory w = (Ret duplicates, w') ∧
    locals_at_end hashlib_new directory w = Ret (file_hashes, duplicates) ∧
    ((entry file_hashes s (Some h) = Some p ∧
      (∀ s' h', entry file_hashes s' h' = Some p → s' = s ∧ h' = Some h) ∧
      p ∉ duplicates.*1)
     ∨
     (∃ o, o ≠ p ∧
           filter (λ pr, pr.1 = p) duplicates = [(p, o)] ∧
           entry file_hashes s (Some h) = Some o ∧
           (∀ s' h', entry file_hashes s' h' ≠ Some p) ∧
           p ∉ duplicates.*2)).
Proof.
  intros Hp Hk.
  pose proof (walk_paths_nodup (fs w) directory) as Hnd.
  set (m := fs w) in *. set (paths := walk_paths m directory) in *.
  destruct (final_state hashlib_new m paths) as [file_hashes duplicates] eqn:Hst.
  assert (dups hashlib_new m paths = duplicates) as Hd
    by (unfold dups; by rewrite Hst).
  assert (∀ s' h', entry file_hashes s' (Some h')
                     = first_of hashlib_new m (s', h') paths) as Hidx.
  { intros s' h'. rewrite <- index_first_seen. by rewrite Hst. }
  assert (∀ s', entry file_hashes s' None ≠ Some p) as Hnone.
  { intros s' Hs'.
    replace file_hashes with (final_state hashlib_new m paths).1 in Hs'
      by (by rewrite Hst).
    rewrite index_failed_last in Hs'.
    apply last_Some_elem_of, list_elem_of_filter in Hs' as [[_ Hh] _].
    apply key_hash_some in Hk as [_ Hk]. congruence. }
  assert (∀ s' h', entry file_hashes s' h' = Some p →
                   first_of hashlib_new m (s, h) paths = Some p ∧
                   s' = s ∧ h' = Some h) as Hown.
  { intros s' [h'|] He; [|by destruct (Hnone s')].
    rewrite Hidx in He. pose proof He as He'.
    apply first_of_elem in He as [_ Hk']. by simplify_eq. }
  apply list_elem_of_split in Hp as (l1 & l2 & Hwalk).
  rewrite Hwalk in Hnd.
  pose proof (dups_of_path hashlib_new m _ _ _ Hnd) as Hf.
  rewrite <- Hwalk, Hd in Hf. unfold new_pair in Hf. rewrite Hk in Hf.
  assert (first_of hashlib_new m (s, h) paths
          = match first_of hashlib_new m (s, h) l1 with
            | Some o => Some o
            | None => Some p
            end) as Hfirst.
  { rewrite Hwalk, first_of_app.
    destruct (first_of hashlib_new m (s, h) l1); [done|].
    unfold first_of. by rewrite filter_cons, decide_True. }
  exists file_hashes, duplicates. eexists. split_and!.
  - rewrite find_run. fold m paths. by rewrite Hst.
  - rewrite locals_run. fold m paths. by rewrite Hst.
  - destruct (first_of hashlib_new m (s, h) l1) as [o|] eqn:E.
    + right. exists o.
      assert (o ≠ p) as Hop.
      { intros ->. apply first_of_elem in E as [Hin _].
        apply NoDup_app in Hnd as (_ & Hdis & _).
        apply (Hdis p Hin). left. }
      assert (∀ s' h', entry file_hashes s' h' ≠ Some p) as Hnot.
      { intros s' h' He. apply Hown in He as (He & _). congruence. }
      split_and!; [done|done|by rewrite Hidx, Hfirst|done|].
      intros ([d o'] & -> & Hin)%list_elem_of_fmap. simpl in *.
      rewrite <- Hd in Hin. apply dups_first in Hin as ([s' h'] & _ & _ & Ho).
      rewrite <- Hidx in Ho. by apply Hnot in Ho.
    + left. split_and!.
      * by rewrite Hidx, Hfirst.
      * intros s' h' He. by apply Hown in He as (_ & ? & ?).
      * intros ([d o] & -> & Hin)%list_elem_of_fmap.
        assert ((d, o) ∈ filter (λ pr : string * string, pr.1 = d) duplicates)
          as Hin' by (by apply list_elem_of_filter).
        simpl in Hf. rewrite Hf in Hin'. by apply not_elem_of_nil in Hin'.
Qed.

Lemma classified_path_single_role_witness :
  ∃ file_hashes duplicates w',
    find_duplicate_files sample_digest "d" sample_world = (Ret duplicates, w') ∧
    locals_at_end sample_digest "d" sample_world
      = Ret (file_hashes, duplicates) ∧
    ((entry file_hashes 5 (Some "hello") = Some "d/b.txt" ∧
      (∀ s' h', entry file_hashes s' h' = Some "d/b.txt" →
                s' = 5 ∧ h' = Some "hello") ∧
      "d/b.txt" ∉ duplicates.*1)
     ∨
     (∃ o, o ≠ "d/b.txt" ∧
           filter (λ pr, pr.1 = "d/b.txt") duplicates = [("d/b.txt", o)] ∧
           entry file_hashes 5 (Some "hello") = Some o ∧
           (∀ s' h', entry file_hashes s' h' ≠ Some "d/b.txt") ∧
           "d/b.txt" ∉ duplicates.*2)).
Proof.
  apply (classified_path_single_role sample_digest sample_world "d"
           "d/b.txt" 5 "hello").
  - simpl. rewrite sample_walk. do 3 right. left.
  - vm_compute. reflexivity.
Defined.

Definition locked_tree : gmap string node :=
  list_to_map
    [("d", Dir);
     ("d/u.txt", File (String.list_byte_of_string "hello") false None)].

(** C5, as stated, fails: a path whose fingerprint failed is stored in the
    index, under the null fingerprint of its size. *)
Lemma unreadable_path_is_indexed :
  hash_of sample_digest locked_tree "d/u.txt" = None ∧
  ∃ file_hashes duplicates,
    locals_at_end sample_digest "d" (World locked_tree 0 [])
      = Ret (file_hashes, duplicates) ∧
    entry file_hashes 5 None = Some "d/u.txt".
Proof.
  split; [vm_compute; reflexivity|].
  eexists _, _. split; vm_compute; reflexivity.
Qed.

(** C5, amended. A walked path whose size is obtained but whose
    fingerprint fails is on neither side of any pair and is an entry of the
    index under no fingerprint; the read error is printed; the scan returns
    normally, with the very pairs that classifying the other paths alone
    yields.  The index does keep, under the null fingerprint of each size,
    the last path of that size whose fingerprint failed. *)
Theorem unreadable_path_skipped hashlib_new w directory p s :
  p ∈ walk_paths (fs w) directory →
  size_of (fs w) p = Some s →
  hash_of hashlib_new (fs w) p = None →
  ∃ file_hashes duplicates evs e,
    find_duplicate_files hashlib_new directory w
      = (Ret duplicates, World (fs w) (ticks w) (trace w ++ evs)) ∧
    locals_at_end hashlib_new directory w = Ret (file_hashes, duplicates) ∧
    (p ∉ duplicates.*1) ∧ (p ∉ duplicates.*2) ∧
    (∀ s' h', entry file_hashes s' (Some h') ≠ Some p) ∧
    read_result (fs w) p = inl e ∧
    Print (ReadErrorMsg e) ∈ evs ∧
    (∃ file_hashes' w'',
       for_each (filter (λ q, q ≠ p) (walk_paths (fs w) directory))
         (classify hashlib_new) (∅, []) w
         = (Ret (file_hashes', duplicates), w'')) ∧
    is_Some (entry file_hashes s None) ∧
    entry file_hashes s None
      = last (filter (λ q, size_of (fs w) q = Some s ∧
                           hash_of hashlib_new (fs w) q = None)
                (walk_paths (fs w) directory)).
Proof.
  intros Hp Hs Hh.
  set (m := fs w) in *. set (paths := walk_paths m directory) in *.
  destruct (final_state hashlib_new m paths) as [file_hashes duplicates] eqn:Hst.
  assert (dups hashlib_new m paths = duplicates) as Hd
    by (unfold dups; by rewrite Hst).
  assert (key_of hashlib_new m p = None) as Hk
    by (unfold key_of; by rewrite Hs, Hh).
  assert (∃ e, read_result m p = inl e) as [e He].
  { rewrite hash_of_read in Hh. destruct (read_result m p); [by eexists|done]. }
  assert (entry file_hashes s None
          = last (filter (λ q, size_of m q = Some s ∧
                               hash_of hashlib_new m q = None) paths)) as Hlast.
  { rewrite <- index_failed_last. by rewrite Hst. }
  exists file_hashes, duplicates. eexists. exists e. split_and!.
  - rewrite find_run. fold m paths. by rewrite Hst.
  - rewrite locals_run. fold m paths. by rewrite Hst.
  - intros ([d o] & -> & Hin)%list_elem_of_fmap. rewrite <- Hd in Hin.
    apply dups_first in Hin as (k & ? & _). simpl in *. congruence.
  - intros ([d o] & -> & Hin)%list_elem_of_fmap. rewrite <- Hd in Hin.
    apply dups_first in Hin as (k & _ & ? & _). simpl in *. congruence.
  - intros s' h' Hin.
    replace file_hashes with (final_state hashlib_new m paths).1 in Hin
      by (by rewrite Hst).
    rewrite index_first_seen in Hin. apply first_of_elem in Hin as [_ ?].
    congruence.
  - done.
  - right.
    apply list_elem_of_bind. exists p. split; [|done].
    unfold classify_events. fold m. rewrite Hs. right.
    unfold hash_events. rewrite He. left.
  - rewrite paths_run. fold m paths.
    destruct (foldl _ _ _) as [file_hashes' duplicates'] eqn:Hst'.
    exists file_hashes'. eexists. do 2 f_equal.
    rewrite <- Hd.
    rewrite (dups_only_classified hashlib_new m (λ q, q ≠ p)).
    + unfold dups, final_state. by rewrite Hst'.
    + intros q [k Hq] ->. congruence.
  - rewrite Hlast.
    assert (p ∈ filter (λ q, size_of m q = Some s ∧
                             hash_of hashlib_new m q = None) paths) as Hin
      by (by apply list_elem_of_filter).
    destruct (filter _ paths) as [|x l] using rev_ind;
      [by apply not_elem_of_nil in Hin|].
    rewrite last_snoc. by eexists.
  - exact Hlast.
Qed.

Lemma unreadable_path_skipped_witness :
  ∃ file_hashes duplicates evs e,
    find_duplicate_files sample_digest "d" sample_world
      = (Ret duplicates,
         World (fs sample_world) (ticks sample_world)
           (trace sample_world ++ evs)) ∧
    locals_at_end sample_digest "d" sample_world
      = Ret (file_hashes, duplicates) ∧
    ("d/u.txt" ∉ duplicates.*1) ∧ ("d/u.txt" ∉ duplicates.*2) ∧
    (∀ s' h', entry file_hashes s' (Some h') ≠ Some "d/u.txt") ∧
    read_result (fs sample_world) "d/u.txt" = inl e ∧
    Print (ReadErrorMsg e) ∈ evs ∧
    (∃ file_hashes' w'',
       for_each (filter (λ q, q ≠ "d/u.txt")
                   (walk_paths (fs sample_world) "d"))
         (classify sample_digest) (∅, []) sample_world
         = (Ret (file_hashes', duplicates), w'')) ∧
    is_Some (entry file_hashes 5 None) ∧
    entry file_hashes 5 None
      = last (filter (λ q, size_of (fs sample_world) q = Some 5 ∧
                           hash_of sample_digest (fs sample_world) q = None)
                (walk_paths (fs sample_world) "d")).
Proof.
  apply (unreadable_path_skipped sample_digest sample_world "d" "d/u.txt" 5).
  - simpl. rewrite sample_walk. right. left.
  - vm_compute. reflexivity.
  - vm_compute. reflexivity.
Defined.

(** C6, as stated, fails: on a root that does not exist the scan completes
    normally with an empty result and reports no error. *)
Lemma missing_root_is_not_fatal :
  find_duplicate_files sample_digest "missing" (World ∅ 0 [])
    = (Ret [], World ∅ 0 [Print (ScanStartMsg "missing")]) ∧
  ¬ ∃ e w',
      find_duplicate_files sample_digest "missing" (World ∅ 0 [])
        = (Raise e, w').
Proof.
  assert (find_duplicate_files sample_digest "missing" (World ∅ 0 [])
            = (Ret [], World ∅ 0 [Print (ScanStartMsg "missing")])) as H
    by (vm_compute; reflexivity).
  split; [done|]. intros (e & w' & H'). congruence.
Qed.

(** C6, amended. When the root does not exist or is not a directory the
    walk is empty: the scan prints its start line, classifies nothing,
    reports no error and returns the empty list. *)
Theorem invalid_root_scans_nothing hashlib_new w directory :
  fs w !! directory ≠ Some Dir →
  find_duplicate_files hashlib_new directory w
    = (Ret [],
       World (fs w) (ticks w) (trace w ++ [Print (ScanStartMsg directory)])).
Proof.
  intros Hroot. rewrite find_run.
  assert (walk_paths (fs w) directory = []) as ->; [|done].
  unfold walk_paths, os.depth_bound. rewrite walk_from_S.
  by destruct (fs w !! directory) as [[]|].
Qed.

Lemma invalid_root_scans_nothing_witness :
  find_duplicate_files sample_digest "d/a.txt" sample_world
    = (Ret [],
       World (fs sample_world) (ticks sample_world)
         (trace sample_world ++ [Print (ScanStartMsg "d/a.txt")])).
Proof.
  apply (invalid_root_scans_nothing sample_digest sample_world "d/a.txt").
  vm_compute. discriminate.
Defined.

(** * The disposition engine *)

(** The directories an event creates. *)
Definition made (e : event) : option string :=
  match e with
  | Mkdir path => Some path
  | _ => None
  end.

(** The renames an event performs. *)
Definition renamed (e : event) : option (string * string) :=
  match e with
  | Rename src dst => Some (src, dst)
  | _ => None
  end.

(** [w'] is reached from [w] by printing, opening, unlinking or renaming
    things that are not directories, and by creating the directories [mk]:
    the directories of [w'] are those of [w] and [mk]; [mv] lists the
    renames performed. *)
Definition grows (mk : list string) (mv : list (string * string))
    (w w' : world) : Prop :=
  (∀ d, fs w' !! d = Some Dir ↔ fs w !! d = Some Dir ∨ d ∈ mk) ∧
  ∃ evs, trace w' = trace w ++ evs ∧
         omap made evs = mk ∧ omap renamed evs = mv.

Lemma grows_refl w : grows [] [] w w.
Proof.
  split.
  - intros d. split; [by left|]. intros [?|?%not_elem_of_nil]; done.
  - exists []. by rewrite app_nil_r.
Qed.

Lemma grows_trans mk1 mk2 mv1 mv2 w1 w2 w3 :
  grows mk1 mv1 w1 w2 → grows mk2 mv2 w2 w3 →
  grows (mk1 ++ mk2) (mv1 ++ mv2) w1 w3.
Proof.
  intros [Hd1 (evs1 & Ht1 & Hm1 & Hv1)] [Hd2 (evs2 & Ht2 & Hm2 & Hv2)]. split.
  - intros d. rewrite Hd2, Hd1, elem_of_app. tauto.
  - exists (evs1 ++ evs2).
    by rewrite Ht2, Ht1, <- app_assoc, !omap_app, Hm1, Hm2, Hv1, Hv2.
Qed.

Lemma grows_emit e w :
  made e = None → renamed e = None →
  grows [] [] w (World (fs w) (ticks w) (trace w ++ [e])).
Proof.
  intros He Hr. split; simpl.
  - intros d. split; [by left|]. intros [?|?%not_elem_of_nil]; done.
  - exists [e]. split; [done|]. simpl. by rewrite He, Hr.
Qed.

Section engine_facts.

Import posixpath.

Lemma digit_not_sep n : is_sep (digit n) = false.
Proof.
  unfold digit. pose proof (Nat.mod_upper_bound n 10) as Hlt.
  destruct (n mod 10) as [|k]; [done|].
  do 9 (destruct k as [|k]; [done|]). lia.
Qed.

Lemma has_sep_String c r : has_sep (String c r) = is_sep c || has_sep r.
Proof. reflexivity. Qed.

Lemma pad2_no_sep n : has_sep (pad2 n) = false.
Proof. unfold pad2. by rewrite !has_sep_String, !digit_not_sep. Qed.

Lemma pad4_no_sep n : has_sep (pad4 n) = false.
Proof.
  unfold pad4. by rewrite !has_sep_String, !digit_not_sep, pad2_no_sep.
Qed.

(** The name of a holding directory has a single component. *)
Lemma move_dir_no_sep t : has_sep ("duplicates_" +:+ strftime t) = false.
Proof.
  unfold strftime.
  by rewrite !has_sep_app, pad4_no_sep, !pad2_no_sep.
Qed.

Lemma basename_no_sep name : has_sep name = false → basename name = name.
Proof. destruct name; simpl; [done|]. by intros ->. Qed.

Lemma makedirs_single name :
  has_sep name = false → name ≠ "" → os.makedirs name = os.mkdir name.
Proof.
  intros Hs Hne. unfold os.makedirs.
  destruct name as [|c name]; [done|].
  change (String.length (String c name)) with (S (String.length name)).
  unfold os.makedirs_from, split.
  rewrite (dirpart_no_sep _ Hs), (basename_no_sep _ Hs). simpl.
  apply functional_extensionality. intros w. by run.
Qed.

Lemma mkdir_fresh name w :
  has_sep name = false → fs w !! name = None →
  os.mkdir name w
    = (Ret tt,
       World (<[name := Dir]> (fs w)) (ticks w) (trace w ++ [Mkdir name])).
Proof.
  intros Hs Hn. unfold os.mkdir, split. run.
  by rewrite Hn, (dirpart_no_sep _ Hs).
Qed.

Lemma mkdir_taken name n w :
  fs w !! name = Some n →
  os.mkdir name w = (Raise (FileExistsError name), w).
Proof. intros Hn. unfold os.mkdir. run. by rewrite Hn. Qed.

End engine_facts.

Lemma path_exists_run path w :
  os.path_exists path w =
    (Ret (match fs w !! path with
          | Some (File _ _ _) | Some Dir => true
          | Some Dangling | None => false
          end), w).
Proof. reflexivity. Qed.

Lemma path_isdir_run path w :
  os.path_isdir path w =
    (Ret (match fs w !! path with
          | Some n => is_dir_node n
          | None => false
          end), w).
Proof. reflexivity. Qed.

Lemma open_rb_grows path w :
  ∃ r, open_rb path w
         = (r, World (fs w) (ticks w) (trace w ++ [Open path])).
Proof.
  unfold open_rb. run.
  destruct (fs w !! path) as [[c [|] b| |]|]; by eexists.
Qed.

Ltac stays :=
  eexists _, _, []; split_and!;
    [reflexivity|reflexivity|apply grows_refl|by left|done].

(** Renaming something that is not a directory leaves the directories as
    they are; a failed rename changes nothing. *)
Lemma rename_not_dir src dst w :
  fs w !! src ≠ Some Dir →
  ∃ r w' mv, os.rename src dst w = (r, w') ∧
             ticks w' = ticks w ∧ grows [] mv w w' ∧
             (mv = [] ∨ mv = [(src, dst)]) ∧
             (∀ e, r = Raise e → w' = w).
Proof.
  intros Hsrc. unfold os.rename. run.
  destruct (fs w !! src) as [[c rd b| |]|] eqn:Hn; try done; simpl;
    repeat case_match; simplify_eq/=; try stays.
  all: eexists _, _, [(src, dst)]; split_and!;
    [reflexivity|reflexivity| |by right|done].
  all: split; simpl;
    [|eexists [Rename _ _]; by rewrite <- ?app_assoc].
  all: intros d; split;
    [intros Hd; left|intros [Hd|Hd%not_elem_of_nil]; [|done]].
  all: destruct (decide (dst = d)) as [->|Hne];
    [rewrite lookup_insert_eq in *; by simplify_eq|
     rewrite lookup_insert_ne in * by done].
  all: destruct (decide (src = d)) as [->|Hne'];
    [rewrite lookup_delete_eq in *; by simplify_eq|
     by rewrite lookup_delete_ne in * by done].
Qed.

Lemma bind_run {A B} (c : M A) (f : A → M B) w :
  (c ≫= f) w =
    match c w with
    | (Ret a, w') => f a w'
    | (Raise e, w') => (Raise e, w')
    end.
Proof. reflexivity. Qed.

Lemma move_not_dir src dst w :
  fs w !! src ≠ Some Dir →
  ∃ r w' mv, shutil.move src dst w = (r, w') ∧
             ticks w' = ticks w ∧ grows [] mv w w' ∧
             (mv = [] ∨ mv = [(src, dst)] ∨
              mv = [(src, posixpath.join dst (shutil._basename src))]).
Proof.
  intros Hsrc. unfold shutil.move.
  rewrite bind_run, path_isdir_run.
  destruct (_ && bool_decide (src = dst)) eqn:Hsame.
  { apply andb_true_iff in Hsame as [Hd ->%bool_decide_eq_true].
    destruct (fs w !! dst) as [[]|]; done. }
  set (d := match fs w !! dst with Some n => is_dir_node n | None => false end).
  rewrite bind_run.
  assert (∃ x, (if d
                then ex ← os.path_exists
                            (posixpath.join dst (shutil._basename src));
                     if ex : bool
                     then raise (shutil_Error
                                   ("Destination path '"
                                      +:+ posixpath.join dst
                                            (shutil._basename src)
                                      +:+ "' already exists"))
                     else mret (posixpath.join dst (shutil._basename src))
                else mret dst) w = (x, w) ∧
               ∀ real_dst, x = Ret real_dst →
                 real_dst = dst ∨
                 real_dst = posixpath.join dst (shutil._basename src))
    as (x & Hx & Hreal).
  { destruct d; [|eexists; split; [done|]; intros ? [= <-]; by left].
    rewrite bind_run, path_exists_run.
    destruct (match fs w !! _ with Some (File _ _ _) | Some Dir => true
              | _ => false end);
      (eexists; split; [done|]); [done|]. intros ? [= <-]. by right. }
  rewrite Hx. destruct x as [real_dst|e];
    [|eexists _, _, []; split_and!;
        [reflexivity|reflexivity|apply grows_refl|by left]].
  rewrite bind_run. unfold try_except.
  destruct (rename_not_dir src real_dst w Hsrc)
    as (r & w1 & mv & Hr & Ht & Hg & Hmv & Hfail).
  assert (mv = [] ∨ mv = [(src, dst)] ∨
          mv = [(src, posixpath.join dst (shutil._basename src))]) as Hmv'.
  { destruct Hmv as [-> | ->]; [by left|].
    destruct (Hreal real_dst eq_refl) as [-> | ->]; auto. }
  rewrite Hr. destruct r as [[]|e].
  { eexists _, _, mv. split_and!; [reflexivity|done..]. }
  assert (w1 = w) as -> by (by apply (Hfail e)). clear Hfail.
  simpl. rewrite bind_run. unfold read_fs.
  assert (∀ w2, grows [] [] w w2 → grows [] mv w w2) as Hvia.
  { intros w2 Hg2. apply (grows_trans [] [] mv [] _ _ _ Hg) in Hg2.
    simpl in Hg2. by rewrite app_nil_r in Hg2. }
  destruct (fs w !! src) as [[c rd b| |]|] eqn:Hn; try done.
  - rewrite bind_run.
    destruct (open_rb_grows src w) as [r' Hr']. rewrite Hr'.
    destruct r'; (eexists _, _, mv; split_and!;
      [reflexivity|reflexivity|by apply Hvia, grows_emit|done]).
  - eexists _, _, mv. split_and!; [reflexivity|reflexivity|done..].
  - rewrite bind_run.
    destruct (open_rb_grows src w) as [r' Hr']. rewrite Hr'.
    destruct r'; (eexists _, _, mv; split_and!;
      [reflexivity|reflexivity|by apply Hvia, grows_emit|done]).
Qed.

Lemma ret_run {A} (a : A) (w : world) : (mret a : M A) w = (Ret a, w).
Proof. reflexivity. Qed.

Lemma print_run msg w :
  print msg w = (Ret tt, World (fs w) (ticks w) (trace w ++ [Print msg])).
Proof. reflexivity. Qed.

Lemma quarantine_step path2 dst move_dir w :
  fs w !! path2 ≠ Some Dir →
  ∃ r w' mv,
    try_except (shutil.move path2 dst;; print (MovedMsg move_dir))
      is_shutil_Error (λ e, print (MoveErrorMsg e)) w = (r, w') ∧
    ticks w' = ticks w ∧ grows [] mv w w' ∧
    (mv = [] ∨ mv = [(path2, dst)] ∨
     mv = [(path2, posixpath.join dst (shutil._basename path2))]).
Proof.
  intros Hsrc. unfold try_except. rewrite bind_run.
  destruct (move_not_dir path2 dst w Hsrc) as (r & w1 & mv & Hr & Ht & Hg & Hmv).
  assert (∀ e, made e = None → renamed e = None →
            grows [] mv w (World (fs w1) (ticks w1) (trace w1 ++ [e])))
    as Hvia.
  { intros e H1 H2.
    pose proof (grows_trans [] [] mv [] _ _ _ Hg (grows_emit e w1 H1 H2)) as Hg2.
    simpl in Hg2. by rewrite app_nil_r in Hg2. }
  rewrite Hr. destruct r as [x|e].
  - rewrite print_run. eexists _, _, mv.
    split_and!; [reflexivity|done|by apply Hvia|done].
  - destruct (is_shutil_Error e).
    + rewrite print_run. eexists _, _, mv.
      split_and!; [reflexivity|done|by apply Hvia|done].
    + by eexists _, _, mv.
Qed.

Lemma move_dir_nonempty t : "duplicates_" +:+ strftime t ≠ "".
Proof. generalize (strftime t). intros s. discriminate. Qed.

Global Opaque strftime.

(** The name of the holding directory under the [k]-th clock reading. *)
Definition move_dir_at (clock : nat → datetime) (k : nat) : string :=
  "duplicates_" +:+ strftime (clock k).

Section holding_directory.

Import posixpath.

Lemma basename_has_no_sep p : has_sep (basename p) = false.
Proof.
  induction p as [|c p IH]; [done|].
  cbn [basename]. destruct (has_sep (String c p)) eqn:E; done.
Qed.

(** A path that [join] builds under a holding directory. *)
Lemma join_under dir name :
  has_sep dir = false → dir ≠ "" → has_sep name = false →
  join dir name = dir +:+ "/" +:+ name.
Proof.
  intros Hd Hne Hn. unfold join.
  rewrite (startswith_sep_has_sep _ Hn), bool_decide_false by done.
  destruct (endswith_sep dir) eqn:E; [|done].
  apply endswith_sep_has_sep in E. congruence.
Qed.

Lemma join_under_twice dir name name' :
  has_sep dir = false → dir ≠ "" → has_sep name = false →
  has_sep name' = false →
  ∃ rest, join (join dir name) name' = dir +:+ "/" +:+ rest.
Proof.
  intros Hd Hne Hn Hn'. rewrite (join_under dir name) by done.
  unfold join. rewrite (startswith_sep_has_sep _ Hn').
  destruct (_ || _); eexists; by rewrite !string_app_assoc.
Qed.

End holding_directory.

(** One pair in quarantine mode: the clock is read once; the directory
    named after that reading is created if nothing bears its name, no
    other directory appears or disappears, and what is moved is the second
    component, to a path under that directory. *)
Lemma dispose_move clock i path1 path2 w :
  fs w !! path2 ≠ Some Dir →
  path2 ≠ move_dir_at clock (ticks w) →
  ∃ r w' mv,
    dispose clock "move" i (path1, path2) w = (r, w') ∧
    ticks w' = S (ticks w) ∧
    grows (if decide (fs w !! move_dir_at clock (ticks w) = None)
           then [move_dir_at clock (ticks w)] else []) mv w w' ∧
    (∀ src dst, (src, dst) ∈ mv →
       src = path2 ∧
       ∃ rest, dst = move_dir_at clock (ticks w) +:+ "/" +:+ rest).
Proof.
  intros Hsrc Hne. unfold dispose.
  rewrite bool_decide_false by done. rewrite bool_decide_true by done.
  do 3 (rewrite bind_run, print_run; cbv iota beta).
  rewrite bind_run. unfold datetime_now at 1. cbn [fs ticks trace].
  fold (move_dir_at clock (ticks w)).
  set (D := move_dir_at clock (ticks w)) in *.
  set (w3 := World (fs w) (S (ticks w)) _).
  assert (grows [] [] w w3) as Hg3.
  { split; simpl.
    - intros d. split; [by left|]. by intros [?|?%not_elem_of_nil].
    - eexists. split; [by rewrite <- !app_assoc|done]. }
  rewrite bind_run, path_exists_run. simpl.
  assert (posixpath.has_sep D = false) as Hs by apply move_dir_no_sep.
  assert (D ≠ "") as Hnz by apply move_dir_nonempty.
  assert (∀ mv,
            mv = [] ∨
            mv = [(path2, posixpath.join D (posixpath.basename path2))] ∨
            mv = [(path2, posixpath.join
                            (posixpath.join D (posixpath.basename path2))
                            (shutil._basename path2))] →
            ∀ src dst, (src, dst) ∈ mv →
              src = path2 ∧ ∃ rest, dst = D +:+ "/" +:+ rest) as Hland.
  { intros mv [-> | [-> | ->]] src dst Hin.
    - by apply not_elem_of_nil in Hin.
    - apply list_elem_of_singleton in Hin as [= -> ->]. split; [done|].
      eexists. apply join_under; [done..|apply basename_has_no_sep].
    - apply list_elem_of_singleton in Hin as [= -> ->]. split; [done|].
      apply join_under_twice; [done..|apply basename_has_no_sep|].
      apply basename_has_no_sep. }
  destruct (fs w !! D) as [[c rd b| |]|] eqn:HD; simpl.
  - rewrite bind_run, ret_run.
    destruct (quarantine_step path2 (posixpath.join D (posixpath.basename path2))
                D w3 Hsrc) as (r & w' & mv & Hr & Ht & Hg & Hmv).
    rewrite Hr. eexists _, _, mv. split_and!; [reflexivity|done| |by apply Hland].
    apply (grows_trans [] [] [] mv _ _ _ Hg3 Hg).
  - rewrite bind_run, ret_run.
    destruct (quarantine_step path2 (posixpath.join D (posixpath.basename path2))
                D w3 Hsrc) as (r & w' & mv & Hr & Ht & Hg & Hmv).
    rewrite Hr. eexists _, _, mv. split_and!; [reflexivity|done| |by apply Hland].
    apply (grows_trans [] [] [] mv _ _ _ Hg3 Hg).
  - rewrite bind_run, makedirs_single, (mkdir_taken D Dangling) by done.
    eexists _, _, []. split_and!; [reflexivity|done|done|].
    by intros ?? ?%not_elem_of_nil.
  - rewrite bind_run, makedirs_single, mkdir_fresh by done. simpl.
    set (w4 := World (<[D:=Dir]> (fs w)) _ _).
    assert (grows [D] [] w3 w4) as Hg4.
    { split; simpl.
      - intros d. rewrite list_elem_of_singleton.
        destruct (decide (D = d)) as [->|Hd].
        + rewrite lookup_insert_eq. tauto.
        + rewrite lookup_insert_ne by done. split; [tauto|].
          intros [?|?]; congruence.
      - by exists [Mkdir D]. }
    assert (fs w4 !! path2 ≠ Some Dir) as Hsrc4.
    { simpl. by rewrite lookup_insert_ne. }
    destruct (quarantine_step path2 (posixpath.join D (posixpath.basename path2))
                D w4 Hsrc4) as (r & w' & mv & Hr & Ht & Hg & Hmv).
    rewrite Hr. eexists _, _, mv. split_and!; [reflexivity|done| |by apply Hland].
    apply (grows_trans [] [D] [] mv _ _ _ Hg3).
    apply (grows_trans [D] [] [] mv _ _ _ Hg4 Hg).
Qed.

Lemma imap_pair_snd {A B} (g : nat → B) (l : list A) :
  (imap (λ i p, (g i, p)) l).*2 = l.
Proof.
  revert g. induction l as [|x l IH]; intros g; [done|].
  simpl. f_equal. apply (IH (g ∘ S)).
Qed.

(** The loop of [manage_duplicate_files] in quarantine mode, over targets
    that are neither directories nor holding directories: every directory
    it creates is new and named after one of the clock readings of the
    run, none is created twice, and every file moved is a target, moved
    under the directory of one of these readings. *)
Lemma quarantine_loop clock (ips : list (nat * (string * string))) w :
  (∀ p, p ∈ ips.*2.*2 → fs w !! p ≠ Some Dir) →
  (∀ p k, p ∈ ips.*2.*2 → k < length ips →
          p ≠ move_dir_at clock (ticks w + k)) →
  ∃ r w' mk mv,
    for_each ips (λ '(i, p) _, dispose clock "move" i p) tt w = (r, w') ∧
    grows mk mv w w' ∧ NoDup mk ∧
    (∀ d, d ∈ mk →
          fs w !! d ≠ Some Dir ∧
          ∃ k, k < length ips ∧ d = move_dir_at clock (ticks w + k)) ∧
    (∀ src dst, (src, dst) ∈ mv →
          src ∈ ips.*2.*2 ∧
          ∃ k rest, k < length ips ∧
            dst = move_dir_at clock (ticks w + k) +:+ "/" +:+ rest).
Proof.
  revert w. induction ips as [|[i [path1 path2]] ips IH]; intros w Hdir Hname.
  - exists (Ret tt), w, [], [].
    split_and!; [done|apply grows_refl|apply NoDup_nil_2|..].
    + by intros ? ?%not_elem_of_nil.
    + by intros ? ? ?%not_elem_of_nil.
  - assert (fs w !! path2 ≠ Some Dir) as H2 by (apply Hdir; left).
    assert (path2 ≠ move_dir_at clock (ticks w)) as H2'.
    { rewrite <- (Nat.add_0_r (ticks w)). apply Hname; [left|simpl; lia]. }
    destruct (dispose_move clock i path1 path2 w H2 H2')
      as (r1 & w1 & mv1 & Hr1 & Ht1 & Hg1 & Hmv1).
    set (D := move_dir_at clock (ticks w)) in *.
    set (mk1 := if decide (fs w !! D = None) then [D] else []) in *.
    assert (NoDup mk1) as Hnd1.
    { unfold mk1. destruct (decide _); [apply NoDup_singleton|constructor]. }
    assert (∀ d, d ∈ mk1 → d = D ∧ fs w !! d = None) as Hmk1.
    { unfold mk1. intros d. destruct (decide _) as [Hn|_].
      - by intros ->%list_elem_of_singleton.
      - by intros ?%not_elem_of_nil. }
    assert (∀ d, d ∈ mk1 →
              fs w !! d ≠ Some Dir ∧
              ∃ k, k < length ((i, (path1, path2)) :: ips) ∧
                   d = move_dir_at clock (ticks w + k)) as Hel1.
    { intros d [-> Hn]%Hmk1. split; [by rewrite Hn|].
      exists 0. split; [simpl; lia|]. by rewrite Nat.add_0_r. }
    assert (∀ src dst, (src, dst) ∈ mv1 →
              src ∈ ((i, (path1, path2)) :: ips).*2.*2 ∧
              ∃ k rest, k < length ((i, (path1, path2)) :: ips) ∧
                dst = move_dir_at clock (ticks w + k) +:+ "/" +:+ rest)
      as Hland1.
    { intros src dst (-> & rest & ->)%Hmv1. split; [left|].
      exists 0, rest. split; [simpl; lia|]. by rewrite Nat.add_0_r. }
    cbn [for_each]. rewrite bind_run, Hr1.
    destruct r1 as [[]|e]; [|by exists (Raise e), w1, mk1, mv1].
    destruct (IH w1) as (r & w' & mk2 & mv2 & Hr & Hg2 & Hnd2 & Hel2 & Hland2).
    { intros p Hp Hd. apply Hg1 in Hd as [Hd|Hd].
      - revert Hd. apply Hdir. by right.
      - apply Hmk1 in Hd as [-> _].
        apply (Hname (move_dir_at clock (ticks w)) 0);
          [by right|simpl; lia|by rewrite Nat.add_0_r]. }
    { intros p k Hp Hk. rewrite Ht1.
      replace (S (ticks w) + k) with (ticks w + S k) by lia.
      apply Hname; [by right|simpl; lia]. }
    exists r, w', (mk1 ++ mk2), (mv1 ++ mv2). split_and!.
    + done.
    + by apply (grows_trans mk1 mk2 mv1 mv2 w w1 w').
    + apply NoDup_app. split_and!; [done| |done].
      intros d Hd1 Hd2. apply Hel2 in Hd2 as [Hd2 _].
      apply Hd2, Hg1. by right.
    + intros d [Hd|Hd]%elem_of_app; [by apply Hel1|].
      apply Hel2 in Hd as (Hd & k & Hk & ->). split.
      * intros Hw. apply Hd, Hg1. by left.
      * exists (S k). split; [simpl; lia|]. rewrite Ht1. f_equal. lia.
    + intros src dst [Hin|Hin]%elem_of_app; [by apply Hland1|].
      apply Hland2 in Hin as (Hsrc & k & rest & Hk & ->).
      split; [by right|]. exists (S k), rest. split; [simpl; lia|].
      rewrite Ht1. do 2 f_equal. lia.
Qed.

(** ** One pair moved *)

(** The three lines printed for the [i]-th pair, lines 52-53. *)
Definition report_lines (i : nat) (pair : string * string) : list event :=
  [Print (PairHeaderMsg (i + 1));
   Print (OriginalLabelMsg pair.1);
   Print (DuplicateLabelMsg pair.2)].

Section quarantine_facts.

Import posixpath.

Local Arguments String.append !_ _ / : simpl nomatch.





End quarantine_facts.



(** The first steps of one pair in move mode, lines 52-66: the three
    lines, the clock reading, and the holding directory made ready. *)
Lemma dispose_move_ready clock i path1 path2 D w :
  D = move_dir_at clock (ticks w) →
  fs w !! D = None ∨ fs w !! D = Some Dir →
  dispose clock "move" i (path1, path2) w
    = try_except
        (shutil.move path2 (posixpath.join D (posixpath.basename path2));;
         print (MovedMsg D))
        is_shutil_Error (λ e, print (MoveErrorMsg e))
        (World (<[D := Dir]> (fs w)) (S (ticks w))
           (trace w ++ report_lines i (path1, path2)
              ++ (if decide (fs w !! D = None) then [Mkdir D] else []))).
Proof.
  intros HD Hdir. unfold dispose.
  rewrite bool_decide_false by done. rewrite bool_decide_true by done.
  do 3 (rewrite bind_run, print_run; cbv iota beta).
  rewrite bind_run. unfold datetime_now at 1. cbn [fs ticks trace].
  fold (move_dir_at clock (ticks w)). rewrite <- HD.
  assert (posixpath.has_sep D = false) as Hs
    by (rewrite HD; apply move_dir_no_sep).
  assert (D ≠ "") as Hnz by (rewrite HD; apply move_dir_nonempty).
  clear HD. rewrite bind_run, path_exists_run. cbn [fs].
  destruct Hdir as [HD|HD]; rewrite HD; cbv iota beta.
  - rewrite decide_True by done.
    rewrite bind_run, makedirs_single by done.
    rewrite mkdir_fresh by done.
    cbn [fs ticks trace]. by rewrite <- !app_assoc.
  - rewrite decide_False by done. rewrite bind_run, ret_run.
    rewrite (insert_id (fs w) D Dir) by done.
    rewrite app_nil_r. by rewrite <- !app_assoc.
Qed.

(** ** A run of moves that all succeed *)





Section moved_run.

Variable clock : nat → datetime.






End moved_run.

(** ** The claims about the disposition engine *)

Definition scenario_tree : gmap string node :=
  list_to_map
    [("d", Dir);
     ("d/a.txt", File (String.list_byte_of_string "hello") true None);
     ("d/b.txt", File (String.list_byte_of_string "hello") true None);
     ("d/c.txt", File (String.list_byte_of_string "world!") true None)].

Definition copies_tree : gmap string node :=
  list_to_map
    [("d", Dir);
     ("d/a.txt", File (String.list_byte_of_string "hello") true None);
     ("d/b.txt", File (String.list_byte_of_string "hello") true None);
     ("d/c.txt", File (String.list_byte_of_string "hello") true None);
     ("d/e.txt", File (String.list_byte_of_string "hello") true None)].


Definition still_clock (k : nat) : datetime := DateTime 2026 11 4 9 5 7.


(** The scenario of the specification: detection, then each disposition. *)
Definition scenario_scan : outcome pairs * world :=
  find_duplicate_files sample_digest "d" (World scenario_tree 0 []).

Definition scenario_run (action : string) : outcome unit * world :=
  manage_duplicate_files still_clock [("d/b.txt", "d/a.txt")] action
    scenario_scan.2.

(** C1. The code does not do what the claim says: the detector emits
    [(later file, recorded original)] and the engine deletes or moves the
    second component.  On the scenario tree the file recorded in the index,
    "d/a.txt", is removed (or moved away) and the later-discovered
    "d/b.txt", which the engine prints as the original, is kept. *)
Theorem disposition_acts_on_recorded_original :
  scenario_scan.1 = Ret [("d/b.txt", "d/a.txt")] ∧
  match locals_at_end sample_digest "d" (World scenario_tree 0 []) with
  | Ret (file_hashes, duplicates) =>
      entry file_hashes 5 (Some "hello") = Some "d/a.txt" ∧
      duplicates = [("d/b.txt", "d/a.txt")]
  | Raise _ => False
  end ∧
  (scenario_run "delete").1 = Ret tt ∧
  trace (scenario_run "delete").2
    = trace scenario_scan.2
        ++ [Print (TotalPairsMsg 1); Print (PairHeaderMsg 1);
            Print (OriginalLabelMsg "d/b.txt");
            Print (DuplicateLabelMsg "d/a.txt");
            Unlink "d/a.txt"; Print (DeletedMsg "d/a.txt")] ∧
  fs (scenario_run "delete").2 !! "d/a.txt" = None ∧
  fs (scenario_run "delete").2 !! "d/b.txt"
    = Some (File (String.list_byte_of_string "hello") true None) ∧
  (scenario_run "move").1 = Ret tt ∧
  fs (scenario_run "move").2 !! "d/a.txt" = None ∧
  fs (scenario_run "move").2 !! "duplicates_20261104_090507/a.txt"
    = Some (File (String.list_byte_of_string "hello") true None) ∧
  fs (scenario_run "move").2 !! "d/b.txt"
    = Some (File (String.list_byte_of_string "hello") true None).
Proof.
  split_and!; try (vm_compute; reflexivity).
  vm_compute. split; reflexivity.
Qed.

(** Four copies of one content: detection, then each disposition. *)
Definition copies_scan : outcome pairs * world :=
  find_duplicate_files sample_digest "d" (World copies_tree 0 []).

Definition copies_run (action : string) : outcome unit * world :=
  manage_duplicate_files still_clock
    [("d/e.txt", "d/c.txt"); ("d/a.txt", "d/c.txt"); ("d/b.txt", "d/c.txt")]
    action copies_scan.2.

(** C8. The code does not do what the claim says in quarantine mode: a
    move whose source is gone raises [FileNotFoundError], which the handler
    for [shutil.Error] does not catch, so the run stops, no failure is
    printed and the third pair is never reached; in delete mode the same
    pairs are all processed, the failures being printed.  (The source is
    gone because the pairs of a group of copies all name the same second
    component.) *)
Theorem move_failure_aborts_batch :
  copies_scan.1
    = Ret [("d/e.txt", "d/c.txt"); ("d/a.txt", "d/c.txt");
           ("d/b.txt", "d/c.txt")] ∧
  (copies_run "move").1 = Raise (FileNotFoundError "d/c.txt") ∧
  trace (copies_run "move").2
    = trace copies_scan.2
        ++ [Print (TotalPairsMsg 3); Print (PairHeaderMsg 1);
            Print (OriginalLabelMsg "d/e.txt");
            Print (DuplicateLabelMsg "d/c.txt");
            Mkdir "duplicates_20261104_090507";
            Rename "d/c.txt" "duplicates_20261104_090507/c.txt";
            Print (MovedMsg "duplicates_20261104_090507");
            Print (PairHeaderMsg 2);
            Print (OriginalLabelMsg "d/a.txt");
            Print (DuplicateLabelMsg "d/c.txt");
            Open "d/c.txt"] ∧
  (copies_run "delete").1 = Ret tt ∧
  trace (copies_run "delete").2
    = trace copies_scan.2
        ++ [Print (TotalPairsMsg 3); Print (PairHeaderMsg 1);
            Print (OriginalLabelMsg "d/e.txt");
            Print (DuplicateLabelMsg "d/c.txt");
            Unlink "d/c.txt"; Print (DeletedMsg "d/c.txt");
            Print (PairHeaderMsg 2);
            Print (OriginalLabelMsg "d/a.txt");
            Print (DuplicateLabelMsg "d/c.txt");
            Print (DeleteErrorMsg (FileNotFoundError "d/c.txt"));
            Print (PairHeaderMsg 3);
            Print (OriginalLabelMsg "d/b.txt");
            Print (DuplicateLabelMsg "d/c.txt");
            Print (DeleteErrorMsg (FileNotFoundError "d/c.txt"))].
Proof.
  split_and!; vm_compute; reflexivity.
Qed.




(** Whether or not the moves succeed, over targets that are neither
    directories nor themselves holding directories: a holding directory is
    created only where none existed, none is created twice, each one
    created is named after a reading of the run and is still there at the
    end, and every file moved is a target, moved under the directory named
    after a reading of the run. *)
Lemma quarantine_never_recreates clock duplicates w :
  (∀ p, p ∈ duplicates.*2 → fs w !! p ≠ Some Dir) →
  (∀ p k, p ∈ duplicates.*2 → k < length duplicates →
          p ≠ move_dir_at clock (ticks w + k)) →
  ∃ r w' evs,
    manage_duplicate_files clock duplicates "move" w = (r, w') ∧
    trace w' = trace w ++ evs ∧
    NoDup (omap made evs) ∧
    (∀ d, d ∈ omap made evs →
          fs w !! d ≠ Some Dir ∧ fs w' !! d = Some Dir ∧
          ∃ k, k < length duplicates ∧ d = move_dir_at clock (ticks w + k)) ∧
    (∀ src dst, Rename src dst ∈ evs →
          src ∈ duplicates.*2 ∧
          ∃ k rest, k < length duplicates ∧
            dst = move_dir_at clock (ticks w + k) +:+ "/" +:+ rest) ∧
    length (omap made evs)
      ≤ length (remove_dups
                  ((λ k, move_dir_at clock (ticks w + k))
                     <$> seq 0 (length duplicates))).
Proof.
  intros Hdir Hname. unfold manage_duplicate_files.
  destruct (bool_decide_reflect (duplicates = [])) as [->|Hne].
  { rewrite print_run. eexists _, _, _. split_and!; [done|done|..]; simpl.
    - constructor.
    - by intros d ?%not_elem_of_nil.
    - intros src dst [[=]|?%not_elem_of_nil]%elem_of_cons. done.
    - lia. }
  rewrite bind_run, print_run.
  set (w0 := World (fs w) (ticks w) _).
  destruct (quarantine_loop clock (imap (λ i p, (i, p)) duplicates) w0)
    as (r & w' & mk & mv & Hr & [Hd (evs & Ht & Hm & Hv)] & Hnd & Hel & Hland).
  { by rewrite (imap_pair_snd id). }
  { rewrite (imap_pair_snd id), length_imap. exact Hname. }
  rewrite length_imap in Hel, Hland. rewrite (imap_pair_snd id) in Hland.
  exists r, w', (Print (TotalPairsMsg (length duplicates)) :: evs).
  assert (omap made (Print (TotalPairsMsg (length duplicates)) :: evs) = mk)
    as -> by done.
  split_and!.
  - exact Hr.
  - rewrite Ht. simpl. by rewrite <- app_assoc.
  - done.
  - intros d Hin. destruct (Hel d Hin) as (Hw & k & Hk & ->).
    split_and!; [done| |by exists k]. apply Hd. by right.
  - intros src dst [[=]|Hin]%elem_of_cons. apply Hland. rewrite <- Hv.
    apply list_elem_of_omap. by exists (Rename src dst).
  - apply submseteq_length, NoDup_submseteq; [done|].
    intros d Hin. destruct (Hel d Hin) as (_ & k & Hk & ->).
    apply elem_of_remove_dups, list_elem_of_fmap. exists k.
    split; [done|]. apply elem_of_seq. lia.
Qed.



(** * Further properties of the detector *)

Section detector_extras.

Variable hashlib_new : string → list byte → string.
Variable m : gmap string node.

Local Abbreviation key := (key_of hashlib_new m).
Local Abbreviation first := (first_of hashlib_new m).
Local Abbreviation dups := (dups hashlib_new m).

(** A classified path is a regular file that was read in full: its key is
    the length and the digest of its bytes. *)
Lemma key_of_Some_content p s h :
  key p = Some (s, h) →
  ∃ content, holds m content p ∧
             s = length content ∧ h = hashlib_new "sha256" content.
Proof.
  intros Hk. apply key_hash_some in Hk as [Hs Hh]. simpl in *.
  rewrite hash_of_read in Hh. rewrite size_of_lookup in Hs.
  destruct (read_result m p) as [e|content] eqn:Hr; [done|].
  exists content. split; [done|]. simplify_eq. split; [|done].
  unfold read_result in Hr.
  destruct (m !! p) as [[c [|] bad| |]|]; try done.
  destruct (decide _); by simplify_eq.
Qed.

Lemma first_of_omap_key k l : first k l = None ↔ k ∉ omap key l.
Proof.
  rewrite first_of_None. split.
  - intros H (q & Hq & Hk)%list_elem_of_omap. by apply (H q).
  - intros H q Hq Hk. apply H, list_elem_of_omap. by exists q.
Qed.

(** One pair for every classified path beyond the first of its key. *)
Lemma dups_count l :
  length (dups l) + size (list_to_set (omap key l) : gset (nat * string))
    = length (omap key l).
Proof.
  induction l as [|p l IH] using rev_ind; [done|].
  rewrite dups_app_one, omap_app, list_to_set_app_L, !length_app.
  unfold new_pair. simpl. destruct (key p) as [k|] eqn:Hk; simpl.
  - rewrite union_empty_r_L.
    destruct (first k l) as [o|] eqn:Ho; simpl.
    + assert (k ∈ omap key l) as Hin.
      { destruct (decide (k ∈ omap key l)) as [|Hn]; [done|].
        apply first_of_omap_key in Hn. congruence. }
      replace (list_to_set (omap key l) ∪ {[k]})
        with (list_to_set (omap key l) : gset (nat * string)); [lia|].
      apply set_eq. intros x. rewrite elem_of_union, elem_of_singleton.
      rewrite elem_of_list_to_set. split; [by left|]. by intros [?| ->].
    + apply first_of_omap_key in Ho.
      rewrite size_union, size_singleton; [lia|].
      apply disjoint_singleton_r. by rewrite elem_of_list_to_set.
  - rewrite !union_empty_r_L. lia.
Qed.

(** In a walk without repetition, the paths reported as duplicates are the
    classified paths that are not the first of their key, in walk order. *)
Definition later_copy (l : list string) (p : string) : Prop :=
  match key p with
  | Some k => first k l ≠ Some p
  | None => False
  end.

Global Instance later_copy_dec l p : Decision (later_copy l p).
Proof. unfold later_copy. destruct (key p); apply _. Defined.

Lemma dups_fst_filter l :
  NoDup l → (dups l).*1 = filter (later_copy l) l.
Proof.
  induction l as [|p l IH] using rev_ind; intros Hnd; [done|].
  apply NoDup_app in Hnd as (Hl & Hp & _).
  rewrite dups_app_one, fmap_app, filter_app, IH by done. f_equal.
  - apply filter_ext_elem. intros q Hq. unfold later_copy.
    destruct (key q) as [k|] eqn:Hk; [|done].
    rewrite first_of_app.
    destruct (first k l) as [o|] eqn:Ho; [done|].
    exfalso. by apply (proj1 (first_of_None _ _ _ _) Ho q).
  - rewrite filter_cons, filter_nil. unfold new_pair.
    destruct (key p) as [k|] eqn:Hk.
    + destruct (first k l) as [o|] eqn:Ho; simpl.
      * rewrite decide_True; [done|]. unfold later_copy.
        rewrite Hk, first_of_app, Ho. intros [= ->].
        apply first_of_elem in Ho as [Hin _]. apply (Hp p Hin). left.
      * rewrite decide_False; [done|]. unfold later_copy.
        rewrite Hk, first_of_app, Ho. intros Hne. apply Hne.
        unfold first_of. by rewrite filter_cons, decide_True.
    + simpl. rewrite decide_False; [done|]. unfold later_copy.
      rewrite Hk. tauto.
Qed.


(** Both sides of a pair are distinct files read in full, of equal length
    and equal digest, the original coming first in the walk. *)
Lemma dups_sound l d o :
  NoDup l → (d, o) ∈ dups l →
  d ≠ o ∧
  (∃ l1 l2 l3, l = l1 ++ o :: l2 ++ d :: l3) ∧
  ∃ cd co, holds m cd d ∧ holds m co o ∧
           length cd = length co ∧
           hashlib_new "sha256" cd = hashlib_new "sha256" co.
Proof.
  intros Hnd Hin. pose proof Hin as Hin'.
  apply dups_elem in Hin as (l1 & l3 & [s h] & -> & Hk & Ho).
  pose proof Ho as Ho'. apply first_of_elem in Ho' as [Hoin Hko].
  apply first_of_Some in Ho as (a & b & -> & _ & _).
  split_and!.
  - intros ->. apply NoDup_app in Hnd as (_ & Hdis & _).
    apply (Hdis o Hoin). left.
  - exists a, b, l3. by rewrite <- app_assoc.
  - apply key_of_Some_content in Hk as (cd & Hd & -> & ->).
    apply key_of_Some_content in Hko as (co & Hco & Hlen & Hdig).
    by exists cd, co.
Qed.

Lemma dups_nil_iff l : dups l = [] ↔ NoDup (omap key l).
Proof.
  induction l as [|p l IH] using rev_ind.
  - split; [intros _; apply NoDup_nil_2|done].
  - rewrite dups_app_one, omap_app, NoDup_app, <- IH. unfold new_pair. simpl.
    destruct (key p) as [k|] eqn:Hk; simpl.
    + destruct (first k l) as [o|] eqn:Ho.
      * split; [by intros [_ ?]%app_eq_nil|]. intros (_ & Hdis & _).
        exfalso. destruct (decide (k ∈ omap key l)) as [Hin|Hn].
        -- apply (Hdis k Hin). left.
        -- apply first_of_omap_key in Hn. congruence.
      * rewrite app_nil_r. apply first_of_omap_key in Ho.
        split; [|by intros [? _]]. intros Hd. split_and!; [done| |].
        -- by intros x Hx ->%list_elem_of_singleton.
        -- apply NoDup_singleton.
    + rewrite app_nil_r. split; [|by intros [? _]]. intros Hd.
      split_and!; [done| |apply NoDup_nil_2].
      by intros x _ ?%not_elem_of_nil.
Qed.

(** A path whose size could not be obtained leaves no mark on the state. *)
Lemma sizeless_untracked l p s h :
  size_of m p = None →
  (p ∉ (dups l).*1) ∧ (p ∉ (dups l).*2) ∧
  entry (final_state hashlib_new m l).1 s h ≠ Some p.
Proof.
  intros Hs.
  assert (key p = None) as Hk by (unfold key_of; by rewrite Hs).
  split_and!.
  - intros ([d o] & -> & Hin)%list_elem_of_fmap.
    apply dups_first in Hin as (k & Hd & _). simpl in *. congruence.
  - intros ([d o] & -> & Hin)%list_elem_of_fmap.
    apply dups_first in Hin as (k & _ & Ho & _). simpl in *. congruence.
  - destruct h as [h|].
    + rewrite index_first_seen. intros [_ Hp]%first_of_elem. congruence.
    + rewrite index_failed_last. intros Hl%last_Some_elem_of.
      apply list_elem_of_filter in Hl as [[Hl _] _]. congruence.
Qed.

End detector_extras.

(** ** Detection as a whole *)

(** An event that only observes the file system. *)
Definition observes (e : event) : Prop :=
  match e with
  | Print _ | Open _ => True
  | _ => False
  end.

Lemma classify_events_observe m l :
  Forall observes (l ≫= classify_events m).
Proof.
  apply Forall_forall. intros e (p & He & _)%list_elem_of_bind.
  unfold classify_events, hash_events in He.
  destruct (size_of m p).
  - apply elem_of_cons in He as [->|He]; [done|].
    destruct (read_result m p); [|by apply not_elem_of_nil in He].
    by apply list_elem_of_singleton in He as ->.
  - by apply list_elem_of_singleton in He as ->.
Qed.

(** X1. Detection never raises and only observes: it leaves the file
    system and the clock as they were, prints its start line first, then
    only prints and opens files, opens no file twice and none outside the
    walk; run again on the world it leaves, it returns the same pairs and
    emits the same events. *)
Theorem detection_only_observes hashlib_new directory w :
  ∃ duplicates evs,
    find_duplicate_files hashlib_new directory w
      = (Ret duplicates, World (fs w) (ticks w) (trace w ++ evs)) ∧
    head evs = Some (Print (ScanStartMsg directory)) ∧
    Forall observes evs ∧
    NoDup (omap opened evs) ∧
    (∀ p, Open p ∈ evs → p ∈ walk_paths (fs w) directory) ∧
    find_duplicate_files hashlib_new directory
        (World (fs w) (ticks w) (trace w ++ evs))
      = (Ret duplicates, World (fs w) (ticks w) ((trace w ++ evs) ++ evs)).
Proof.
  eexists _, _. split; [apply find_run|]. split_and!.
  - done.
  - apply Forall_cons. split; [done|apply classify_events_observe].
  - simpl. rewrite opened_classify_events.
    apply NoDup_filter, walk_paths_nodup.
  - intros p Hp.
    assert (p ∈ omap opened
              (walk_paths (fs w) directory ≫= classify_events (fs w))) as Hin.
    { apply list_elem_of_omap. exists (Open p). split; [|done].
      by apply elem_of_cons in Hp as [?|?]. }
    rewrite opened_classify_events in Hin.
    by apply list_elem_of_filter in Hin as [_ ?].
  - by rewrite find_run.
Qed.

(** X2. Every reported pair is genuine: its two paths are distinct files of
    the walk, the recorded original walked first, both read in full, of
    equal length and equal digest; when the digest has no collision they
    hold the same bytes. *)
Theorem reported_pair_is_genuine hashlib_new directory w duplicates d o :
  (find_duplicate_files hashlib_new directory w).1 = Ret duplicates →
  (d, o) ∈ duplicates →
  d ≠ o ∧
  (∃ l1 l2 l3, walk_paths (fs w) directory = l1 ++ o :: l2 ++ d :: l3) ∧
  ∃ cd co, holds (fs w) cd d ∧ holds (fs w) co o ∧
           length cd = length co ∧
           hashlib_new "sha256" cd = hashlib_new "sha256" co ∧
           ((∀ a b, hashlib_new "sha256" a = hashlib_new "sha256" b → a = b)
            → cd = co).
Proof.
  rewrite find_run. simpl. intros [= <-] Hin.
  apply dups_sound in Hin as (Hne & Hord & cd & co & Hd & Ho & Hlen & Hdig);
    [|apply walk_paths_nodup].
  split_and!; [done|done|]. exists cd, co. split_and!; try done.
  intros Hinj. by apply Hinj.
Qed.

Lemma reported_pair_is_genuine_witness :
  "d/sub/e.txt" ≠ "d/a.txt" ∧
  (∃ l1 l2 l3,
     walk_paths (fs sample_world) "d"
       = l1 ++ "d/a.txt" :: l2 ++ "d/sub/e.txt" :: l3) ∧
  ∃ cd co, holds (fs sample_world) cd "d/sub/e.txt" ∧
           holds (fs sample_world) co "d/a.txt" ∧
           length cd = length co ∧
           sample_digest "sha256" cd = sample_digest "sha256" co ∧
           ((∀ a b, sample_digest "sha256" a = sample_digest "sha256" b → a = b)
            → cd = co).
Proof.
  apply (reported_pair_is_genuine sample_digest "d" sample_world
           [("d/b.txt", "d/a.txt"); ("d/sub/e.txt", "d/a.txt")]).
  - vm_compute. reflexivity.
  - right. left.
Defined.

(** X3. The reported duplicates are exactly the later copies, once each
    and in walk order: a walked file read in full is the duplicate side of
    a pair if and only if some file walked before it was read in full with
    the same length and the same digest. *)
Theorem later_copies_all_reported hashlib_new directory w :
  ∃ duplicates,
    (find_duplicate_files hashlib_new directory w).1 = Ret duplicates ∧
    NoDup duplicates.*1 ∧
    sublist duplicates.*1 (walk_paths (fs w) directory) ∧
    ∀ l1 d l2 cd,
      walk_paths (fs w) directory = l1 ++ d :: l2 →
      holds (fs w) cd d →
      (d ∈ duplicates.*1 ↔
       ∃ q cq, q ∈ l1 ∧ holds (fs w) cq q ∧ length cq = length cd ∧
               hashlib_new "sha256" cq = hashlib_new "sha256" cd).
Proof.
  eexists. split; [by rewrite find_run|].
  pose proof (walk_paths_nodup (fs w) directory) as Hnd.
  set (m := fs w) in *. set (paths := walk_paths m directory) in *.
  fold (dups hashlib_new m paths).
  rewrite (dups_fst_filter hashlib_new m paths Hnd). split_and!.
  - by apply NoDup_filter.
  - apply sublist_filter.
  - intros l1 d l2 cd Hsplit Hd.
    pose proof (key_of_content hashlib_new m d cd Hd) as Hk.
    rewrite list_elem_of_filter. unfold later_copy. rewrite Hk, Hsplit.
    rewrite Hsplit in Hnd. apply NoDup_app in Hnd as (_ & Hdis & _).
    rewrite first_of_app. split.
    + intros [Hfirst _].
      destruct (first_of hashlib_new m _ l1) as [q|] eqn:Hq.
      * apply first_of_elem in Hq as [Hin Hkq].
        apply key_of_Some_content in Hkq as (cq & Hcq & Hlen & Hdig).
        by exists q, cq.
      * destruct Hfirst. unfold first_of.
        by rewrite filter_cons, decide_True.
    + intros (q & cq & Hin & Hcq & Hlen & Hdig). split.
      * destruct (first_of hashlib_new m _ l1) as [o|] eqn:Ho.
        -- intros [= ->]. apply first_of_elem in Ho as [Ho _].
           apply (Hdis d Ho). left.
        -- exfalso. apply (proj1 (first_of_None _ _ _ _) Ho q Hin).
           rewrite (key_of_content hashlib_new m q cq Hcq). congruence.
      * apply elem_of_app. right. left.
Qed.

(** X4. The number of pairs is the number of classified files of the walk
    less the number of distinct (size, digest) keys among them: every
    classified file beyond the first of its key yields one pair. *)
Theorem pair_count hashlib_new directory w :
  ∃ duplicates,
    (find_duplicate_files hashlib_new directory w).1 = Ret duplicates ∧
    length duplicates
      + size (list_to_set (omap (key_of hashlib_new (fs w))
                                (walk_paths (fs w) directory))
                : gset (nat * string))
      = length (omap (key_of hashlib_new (fs w))
                     (walk_paths (fs w) directory)).
Proof.
  eexists. split; [by rewrite find_run|]. apply dups_count.
Qed.

(** X5. A walked entry whose size cannot be obtained is reported by the
    access-error line and otherwise ignored: it is never opened, it is on
    neither side of any pair and it is no entry of the index. *)
Theorem sizeless_entry_ignored hashlib_new directory w p :
  p ∈ walk_paths (fs w) directory →
  size_of (fs w) p = None →
  ∃ file_hashes duplicates evs,
    find_duplicate_files hashlib_new directory w
      = (Ret duplicates, World (fs w) (ticks w) (trace w ++ evs)) ∧
    locals_at_end hashlib_new directory w = Ret (file_hashes, duplicates) ∧
    Print (AccessErrorMsg (FileNotFoundError p)) ∈ evs ∧
    (Open p ∉ evs) ∧
    (p ∉ duplicates.*1) ∧ (p ∉ duplicates.*2) ∧
    ∀ s h, entry file_hashes s h ≠ Some p.
Proof.
  intros Hp Hs.
  set (m := fs w) in *. set (paths := walk_paths m directory) in *.
  destruct (final_state hashlib_new m paths) as [file_hashes duplicates] eqn:Hst.
  exists file_hashes, duplicates. eexists.
  split; [rewrite find_run; fold m paths; by rewrite Hst|].
  split; [rewrite locals_run; fold m paths; by rewrite Hst|].
  split_and!.
  - right. apply list_elem_of_bind. exists p. split; [|done].
    unfold classify_events. rewrite Hs. left.
  - intros [?|Hin]%elem_of_cons; [done|].
    assert (p ∈ omap opened (paths ≫= classify_events m)) as Ho.
    { apply list_elem_of_omap. by exists (Open p). }
    rewrite opened_classify_events in Ho.
    apply list_elem_of_filter in Ho as [[s Hs'] _]. congruence.
  - pose proof (sizeless_untracked hashlib_new m paths p 0 None Hs) as (H & _).
    unfold dups in H. by rewrite Hst in H.
  - pose proof (sizeless_untracked hashlib_new m paths p 0 None Hs)
      as (_ & H & _).
    unfold dups in H. by rewrite Hst in H.
  - intros s h.
    pose proof (sizeless_untracked hashlib_new m paths p s h Hs) as (_ & _ & H).
    by rewrite Hst in H.
Qed.

Lemma sizeless_entry_ignored_witness :
  ∃ file_hashes duplicates evs,
    find_duplicate_files sample_digest "d" sample_world
      = (Ret duplicates,
         World (fs sample_world) (ticks sample_world)
           (trace sample_world ++ evs)) ∧
    locals_at_end sample_digest "d" sample_world
      = Ret (file_hashes, duplicates) ∧
    Print (AccessErrorMsg (FileNotFoundError "d/sub/z")) ∈ evs ∧
    (Open "d/sub/z" ∉ evs) ∧
    ("d/sub/z" ∉ duplicates.*1) ∧ ("d/sub/z" ∉ duplicates.*2) ∧
    ∀ s h, entry file_hashes s h ≠ Some "d/sub/z".
Proof.
  apply (sizeless_entry_ignored sample_digest "d" sample_world "d/sub/z").
  - simpl. rewrite sample_walk. do 6 right. left.
  - vm_compute. reflexivity.
Defined.

(** X6. The scan reports nothing exactly when the classified files of the
    walk have pairwise distinct (size, digest) keys; the report that
    follows then prints its single line and changes nothing, whatever the
    action. *)
Theorem nothing_reported_iff_distinct hashlib_new clock directory action w :
  ∃ duplicates w1,
    find_duplicate_files hashlib_new directory w = (Ret duplicates, w1) ∧
    (duplicates = [] ↔
     NoDup (omap (key_of hashlib_new (fs w)) (walk_paths (fs w) directory))) ∧
    (duplicates = [] →
     manage_duplicate_files clock duplicates action w1
       = (Ret tt, World (fs w) (ticks w) (trace w1 ++ [Print NoDuplicatesMsg]))).
Proof.
  eexists _, _. split; [apply find_run|]. split.
  - apply dups_nil_iff.
  - intros ->. reflexivity.
Qed.

(** ** The reach of the walk *)

(** A walked path names an entry of the file system that is not a
    directory, below the root of the walk. *)
Lemma walk_paths_elem m directory p :
  p ∈ walk_paths m directory →
  (∃ n, m !! p = Some n ∧ n ≠ Dir) ∧
  ∃ rest, p = os.dir_prefix directory +:+ rest.
Proof.
  unfold walk_paths, walk_files.
  intros (t & Hp & Ht)%list_elem_of_bind.
  apply walk_from_elem in Ht as [Et Hpre].
  apply list_elem_of_fmap in Hp as (name & -> & Hname).
  rewrite Et in Hname. cbn [snd] in Hname.
  destruct (listed_name m _ _ (or_intror Hname)) as [Hne Hs].
  rewrite join_name by done.
  unfold nondirs in Hname.
  apply list_elem_of_fmap in Hname as ([name' n] & -> & Hin).
  apply list_elem_of_filter in Hin as [Hnd Hin]. simpl in *.
  apply scandir_elem in Hin as (k & Hk & Hc).
  apply child_name_Some in Hc as (-> & _ & _). split.
  - exists n. split; [done|]. intros ->. by apply Hnd.
  - destruct Hpre as [->|(d & r & _ & ->)]; [by eexists|].
    eexists. by rewrite !string_app_assoc.
Qed.

(** X14. Detection stays below its root and never fingerprints or reports
    a directory: every path it opens, and every path on either side of a
    pair, names an entry of the file system that is not a directory and
    whose name extends the root's. *)
Theorem detection_stays_below_root hashlib_new directory w :
  ∃ duplicates evs,
    find_duplicate_files hashlib_new directory w
      = (Ret duplicates, World (fs w) (ticks w) (trace w ++ evs)) ∧
    ∀ p, Open p ∈ evs ∨ p ∈ duplicates.*1 ∨ p ∈ duplicates.*2 →
         (∃ n, fs w !! p = Some n ∧ n ≠ Dir) ∧
         ∃ rest, p = os.dir_prefix directory +:+ rest.
Proof.
  eexists _, _. split; [apply find_run|]. intros p Hp.
  apply walk_paths_elem. destruct Hp as [Hp|[Hp|Hp]].
  - assert (p ∈ omap opened
              (walk_paths (fs w) directory ≫= classify_events (fs w))) as Hin.
    { apply list_elem_of_omap. exists (Open p). split; [|done].
      by apply elem_of_cons in Hp as [?|?]. }
    rewrite opened_classify_events in Hin.
    by apply list_elem_of_filter in Hin as [_ ?].
  - by apply (dups_fst_elem hashlib_new (fs w)).
  - by apply (dups_snd_elem hashlib_new (fs w)).
Qed.

(** * Further properties of the disposition engine *)

Lemma dispose_report clock action i pair w :
  action ≠ "delete" → action ≠ "move" →
  dispose clock action i pair w
    = (Ret tt, World (fs w) (ticks w) (trace w ++ report_lines i pair)).
Proof.
  intros Hd Hm. destruct pair as [path1 path2]. unfold dispose.
  rewrite !bool_decide_false by done.
  do 3 (rewrite bind_run, print_run; cbv iota beta).
  rewrite ret_run. cbn [fs ticks trace]. by rewrite <- !app_assoc.
Qed.

Lemma report_loop clock action (g : nat → nat) (l : pairs) w :
  action ≠ "delete" → action ≠ "move" →
  for_each (imap (λ i p, (g i, p)) l) (λ '(i, p) _, dispose clock action i p)
           tt w
    = (Ret tt,
       World (fs w) (ticks w)
         (trace w ++ concat (imap (λ i p, report_lines (g i) p) l))).
Proof.
  intros Hd Hm. revert g w. induction l as [|p l IH]; intros g w.
  - simpl. rewrite app_nil_r. by destruct w.
  - cbn [imap for_each]. rewrite bind_run, dispose_report by done.
    rewrite (IH (g ∘ S)). cbn [fs ticks trace concat].
    by rewrite <- app_assoc.
Qed.

(** X7. With an action that is neither "delete" nor "move" the engine only
    reports: it returns normally, leaves the file system and the clock as
    they were, and prints the total followed by the three lines of every
    pair in order, or its single line when there is no pair. *)
Theorem other_action_only_reports clock duplicates action w :
  action ≠ "delete" → action ≠ "move" →
  manage_duplicate_files clock duplicates action w
    = (Ret tt,
       World (fs w) (ticks w)
         (trace w ++
            if decide (duplicates = []) then [Print NoDuplicatesMsg]
            else Print (TotalPairsMsg (length duplicates))
                   :: concat (imap report_lines duplicates))).
Proof.
  intros Hd Hm. unfold manage_duplicate_files.
  destruct (decide (duplicates = [])) as [->|Hne]; [reflexivity|].
  rewrite bool_decide_false by done.
  rewrite bind_run, print_run. cbv iota beta.
  rewrite (report_loop clock action (λ i, i)) by done.
  cbn [fs ticks trace]. by rewrite <- app_assoc.
Qed.

Lemma other_action_only_reports_witness :
  manage_duplicate_files still_clock
      [("d/b.txt", "d/a.txt"); ("d/sub/e.txt", "d/a.txt")] "list" sample_world
    = (Ret tt,
       World (fs sample_world) (ticks sample_world)
         (trace sample_world ++
            if decide ([("d/b.txt", "d/a.txt"); ("d/sub/e.txt", "d/a.txt")]
                         = @nil (string * string))
            then [Print NoDuplicatesMsg]
            else Print (TotalPairsMsg
                          (length [("d/b.txt", "d/a.txt");
                                   ("d/sub/e.txt", "d/a.txt")]))
                   :: concat (imap report_lines
                                [("d/b.txt", "d/a.txt");
                                 ("d/sub/e.txt", "d/a.txt")]))).
Proof.
  apply (other_action_only_reports still_clock
           [("d/b.txt", "d/a.txt"); ("d/sub/e.txt", "d/a.txt")] "list"
           sample_world); discriminate.
Defined.

(** ** Deleting *)

(** What [os.remove(path2)] inside its handler leaves of the file system,
    and the events of lines 56-60. *)
Definition unlink_fs (m : gmap string node) (path2 : string)
    : gmap string node :=
  match m !! path2 with
  | Some Dir | None => m
  | Some _ => delete path2 m
  end.

Definition unlink_events (m : gmap string node) (path2 : string)
    : list event :=
  match m !! path2 with
  | Some Dir => [Print (DeleteErrorMsg (IsADirectoryError path2))]
  | Some _ => [Unlink path2; Print (DeletedMsg path2)]
  | None => [Print (DeleteErrorMsg (FileNotFoundError path2))]
  end.

(** The events of the loop in delete mode, from the pair numbered [g 0]. *)
Fixpoint delete_trace (g : nat → nat) (m : gmap string node) (l : pairs)
    : list event :=
  match l with
  | [] => []
  | pr :: l' =>
      report_lines (g 0) pr ++ unlink_events m pr.2
        ++ delete_trace (g ∘ S) (unlink_fs m pr.2) l'
  end.

Lemma dispose_delete clock i pair w :
  dispose clock "delete" i pair w
    = (Ret tt,
       World (unlink_fs (fs w) pair.2) (ticks w)
         (trace w ++ report_lines i pair ++ unlink_events (fs w) pair.2)).
Proof.
  destruct pair as [path1 path2]. unfold dispose.
  rewrite bool_decide_true by done.
  do 3 (rewrite bind_run, print_run; cbv iota beta).
  unfold unlink_fs, unlink_events, os.remove. run.
  destruct (fs w !! path2) as [[]|]; simpl; by rewrite <- !app_assoc.
Qed.

Lemma delete_loop clock (g : nat → nat) (l : pairs) w :
  for_each (imap (λ i p, (g i, p)) l) (λ '(i, p) _, dispose clock "delete" i p)
           tt w
    = (Ret tt,
       World (foldl unlink_fs (fs w) l.*2) (ticks w)
         (trace w ++ delete_trace g (fs w) l)).
Proof.
  revert g w. induction l as [|p l IH]; intros g w.
  - simpl. rewrite app_nil_r. by destruct w.
  - cbn [imap for_each]. rewrite bind_run, dispose_delete.
    rewrite (IH (g ∘ S)). cbn [fs ticks trace delete_trace fmap list_fmap foldl].
    by rewrite <- !app_assoc.
Qed.

Lemma delete_run clock (l : pairs) w :
  manage_duplicate_files clock l "delete" w
    = (Ret tt,
       World (foldl unlink_fs (fs w) l.*2) (ticks w)
         (trace w ++
            if decide (l = []) then [Print NoDuplicatesMsg]
            else Print (TotalPairsMsg (length l))
                   :: delete_trace (λ i, i) (fs w) l)).
Proof.
  unfold manage_duplicate_files.
  destruct (decide (l = [])) as [->|Hne]; [reflexivity|].
  rewrite bool_decide_false by done.
  rewrite bind_run, print_run. cbv iota beta.
  rewrite (delete_loop clock (λ i, i)).
  cbn [fs ticks trace]. by rewrite <- app_assoc.
Qed.

Lemma unlink_fs_lookup m q p :
  unlink_fs m q !! p =
    if decide (p = q ∧ m !! p ≠ Some Dir) then None else m !! p.
Proof.
  unfold unlink_fs. destruct (decide (p = q)) as [->|Hne].
  - destruct (m !! q) as [[]|] eqn:Hq.
    + rewrite decide_True by done. apply lookup_delete_eq.
    + rewrite decide_False by (intros [_ ?]; done). done.
    + rewrite decide_True by done. apply lookup_delete_eq.
    + by rewrite decide_True.
  - rewrite decide_False by (by intros [? _]).
    destruct (m !! q) as [[]|]; by rewrite ?lookup_delete_ne.
Qed.

Lemma foldl_unlink_lookup (l : list string) m p :
  foldl unlink_fs m l !! p =
    if decide (p ∈ l ∧ m !! p ≠ Some Dir) then None else m !! p.
Proof.
  revert m. induction l as [|q l IH]; intros m; cbn [foldl].
  - rewrite decide_False; [done|]. by intros [?%not_elem_of_nil _].
  - rewrite IH, unlink_fs_lookup.
    destruct (decide (p = q ∧ m !! p ≠ Some Dir)) as [[-> Hq]|Hn].
    + rewrite (decide_True (P := q ∈ q :: l ∧ _)) by (split; [left|done]).
      by destruct (decide _).
    + destruct (decide (p ∈ l ∧ m !! p ≠ Some Dir)) as [[Hin Hd]|Hn'].
      * rewrite decide_True; [done|]. split; [by right|done].
      * destruct (decide (p ∈ q :: l ∧ m !! p ≠ Some Dir)) as [[Hin Hd]|?];
          [|done].
        apply elem_of_cons in Hin as [->|Hin]; tauto.
Qed.

Definition unlinked (e : event) : option string :=
  match e with
  | Unlink path => Some path
  | _ => None
  end.

Lemma delete_trace_unlinks g m l p :
  Unlink p ∈ delete_trace g m l ↔
  p ∈ l.*2 ∧ ∃ n, m !! p = Some n ∧ n ≠ Dir.
Proof.
  revert g m. induction l as [|[path1 path2] l IH]; intros g m; simpl.
  - split; [by intros ?%not_elem_of_nil|by intros [?%not_elem_of_nil _]].
  - rewrite !elem_of_cons, elem_of_app, IH, unlink_fs_lookup.
    unfold unlink_events. split.
    + intros [?|[?|[?|[Hu|[Hin (n & Hn & Hd)]]]]]; try done.
      * destruct (m !! path2) as [[]|] eqn:Hq;
          repeat (apply elem_of_cons in Hu as [Hu|Hu]); simplify_eq;
          try (by apply not_elem_of_nil in Hu);
          (split; [by left|eauto]).
      * destruct (decide _); [done|]. split; [by right|eauto].
    + intros [[->|Hin] (n & Hn & Hd)].
      * do 3 right. left. rewrite Hn. destruct n; try done; left.
      * destruct (decide (p = path2)) as [->|Hne].
        -- do 3 right. left. rewrite Hn. destruct n; try done; left.
        -- do 4 right. split; [done|].
           rewrite decide_False by (by intros [? _]). eauto.
Qed.

Lemma delete_trace_headers g m l i pair :
  l !! i = Some pair → Print (PairHeaderMsg (g i + 1)) ∈ delete_trace g m l.
Proof.
  revert g m i. induction l as [|p l IH]; intros g m [|i] Hi; simplify_eq/=.
  - left.
  - do 3 right. apply elem_of_app. right. apply (IH (g ∘ S)), Hi.
Qed.

Lemma delete_trace_quiet g m l :
  omap made (delete_trace g m l) = [] ∧
  omap renamed (delete_trace g m l) = [].
Proof.
  revert g m. induction l as [|p l IH]; intros g m; [done|].
  destruct (IH (g ∘ S) (unlink_fs m p.2)) as [IH1 IH2].
  simpl. rewrite !omap_app, IH1, IH2. unfold unlink_events.
  by destruct (m !! p.2) as [[]|].
Qed.

Lemma delete_trace_unlinked_nodup g m l :
  NoDup (omap unlinked (delete_trace g m l)).
Proof.
  revert g m. induction l as [|[path1 path2] l IH]; intros g m;
    [apply NoDup_nil_2|].
  cbn [delete_trace snd]. rewrite !omap_app.
  assert (omap unlinked (report_lines (g 0) (path1, path2)) = []) as ->
    by done.
  cbn [app]. apply NoDup_app. split_and!; [| |apply IH].
  - unfold unlink_events. destruct (m !! path2) as [[]|]; simpl;
      try apply NoDup_nil_2; apply NoDup_singleton.
  - intros p Hp (e & He & Hpe)%list_elem_of_omap.
    destruct e; simplify_eq/=.
    apply delete_trace_unlinks in He as [_ (n & Hn & _)].
    rewrite unlink_fs_lookup in Hn.
    unfold unlink_events in Hp.
    destruct (m !! path2) as [[]|] eqn:Hq; simpl in Hp;
      try (by apply not_elem_of_nil in Hp);
      apply list_elem_of_singleton in Hp as ->;
      rewrite decide_True in Hn; try done; split; congruence.
Qed.

(** The line that ends a pair in delete mode, lines 58 and 60. *)
Definition outcome_line (e : event) : bool :=
  match e with
  | Print (DeletedMsg _) | Print (DeleteErrorMsg _) => true
  | _ => false
  end.

Lemma delete_trace_outcomes g m l :
  length (filter (λ e, outcome_line e) (delete_trace g m l)) = length l.
Proof.
  revert g m. induction l as [|[path1 path2] l IH]; intros g m; [done|].
  cbn [delete_trace snd]. rewrite !filter_app, !length_app, IH.
  unfold unlink_events. by destruct (m !! path2) as [[]|].
Qed.

(** X8. Delete mode never raises and never stops early.  It leaves the
    clock alone, creates and renames nothing, prints the header of every
    pair and ends every pair with one line, the removal or its failure.
    Whichever removals take place, only second components are unlinked,
    each at most once and only where an entry that is not a directory
    was; the paths unlinked are gone and every other path keeps what it
    held. *)
Theorem delete_mode_unlinks_only_second_components clock duplicates w :
  ∃ m' evs,
    manage_duplicate_files clock duplicates "delete" w
      = (Ret tt, World m' (ticks w) (trace w ++ evs)) ∧
    (∀ i pair, duplicates !! i = Some pair →
               Print (PairHeaderMsg (i + 1)) ∈ evs) ∧
    length (filter (λ e, outcome_line e) evs) = length duplicates ∧
    omap made evs = [] ∧ omap renamed evs = [] ∧
    NoDup (omap unlinked evs) ∧
    (∀ p, Unlink p ∈ evs →
          p ∈ duplicates.*2 ∧ ∃ n, fs w !! p = Some n ∧ n ≠ Dir) ∧
    (∀ p, m' !! p = if decide (Unlink p ∈ evs) then None else fs w !! p).
Proof.
  eexists _, _. split; [apply delete_run|].
  destruct (decide (duplicates = [])) as [->|Hne].
  { split_and!; try done.
    - apply NoDup_nil_2.
    - by intros p [?|?%not_elem_of_nil]%elem_of_cons. }
  assert (∀ p, Unlink p ∈ Print (TotalPairsMsg (length duplicates))
                            :: delete_trace (λ i, i) (fs w) duplicates ↔
               p ∈ duplicates.*2 ∧ ∃ n, fs w !! p = Some n ∧ n ≠ Dir)
    as Hunl.
  { intros p. rewrite elem_of_cons, delete_trace_unlinks.
    split; [by intros [?|?]|by right]. }
  split_and!.
  - intros i pair Hi. right.
    apply (delete_trace_headers (λ i, i) _ _ _ _ Hi).
  - rewrite filter_cons. cbn [outcome_line]. apply delete_trace_outcomes.
  - simpl. apply delete_trace_quiet.
  - simpl. apply delete_trace_quiet.
  - simpl. apply delete_trace_unlinked_nodup.
  - intros p. apply Hunl.
  - intros p. rewrite foldl_unlink_lookup.
    destruct (decide (Unlink p ∈ _)) as [Hu|Hu].
    + apply Hunl in Hu as [Hin (n & Hn & Hd)].
      rewrite decide_True; [done|]. split; [done|]. congruence.
    + destruct (decide _) as [[Hin Hd]|]; [|done].
      destruct (fs w !! p) as [n|] eqn:Hn; [|done].
      destruct Hu. apply Hunl. split; [done|].
      exists n. split; [done|]. by intros ->.
Qed.

(** X9. Deleting is idempotent: a second run over the same pairs returns
    normally, unlinks nothing and leaves the file system as the first run
    left it. *)
Theorem delete_mode_idempotent clock duplicates w :
  ∃ m' evs evs',
    manage_duplicate_files clock duplicates "delete" w
      = (Ret tt, World m' (ticks w) (trace w ++ evs)) ∧
    manage_duplicate_files clock duplicates "delete"
        (World m' (ticks w) (trace w ++ evs))
      = (Ret tt, World m' (ticks w) ((trace w ++ evs) ++ evs')) ∧
    omap unlinked evs' = [].
Proof.
  eexists _, _, _. split; [apply delete_run|].
  rewrite delete_run. cbn [fs ticks trace].
  set (m' := foldl unlink_fs (fs w) duplicates.*2).
  assert (∀ p, p ∈ duplicates.*2 → ¬ ∃ n, m' !! p = Some n ∧ n ≠ Dir) as Hgone.
  { intros p Hp (n & Hn & Hd). unfold m' in Hn.
    rewrite foldl_unlink_lookup in Hn.
    destruct (decide _) as [|Hno]; [done|].
    apply Hno. split; [done|]. congruence. }
  split.
  - f_equal. f_equal. apply map_eq. intros p.
    rewrite foldl_unlink_lookup.
    destruct (decide _) as [[Hp Hd]|]; [|done].
    destruct (m' !! p) as [n|] eqn:Hn; [|done].
    destruct (Hgone p Hp). exists n. split; [done|]. by intros ->.
  - destruct (decide (duplicates = [])); [done|]. simpl.
    apply elem_of_nil_inv. intros p (e & He & Hpe)%list_elem_of_omap.
    destruct e; simplify_eq/=.
    apply delete_trace_unlinks in He as [Hin Hn]. by destruct (Hgone p Hin).
Qed.


(** ** Moving *)



(** X12. The one failure the handler of move mode catches.  When the name
    the target would take under the holding directory is itself a
    directory that already has an entry of the target's base name,
    [shutil.move] raises [shutil.Error]: the failure is printed, nothing is
    moved, and the pair ends normally. *)
Theorem move_name_clash_is_reported clock i path1 path2 D dst real n w :
  D = move_dir_at clock (ticks w) →
  dst = D +:+ "/" +:+ posixpath.basename path2 →
  real = posixpath.join dst (shutil._basename path2) →
  fs w !! D = Some Dir → fs w !! dst = Some Dir →
  fs w !! real = Some n → n ≠ Dangling → path2 ≠ dst →
  dispose clock "move" i (path1, path2) w
    = (Ret tt,
       World (fs w) (S (ticks w))
         (trace w ++ report_lines i (path1, path2)
            ++ [Print (MoveErrorMsg
                  (shutil_Error
                     ("Destination path '" +:+ real
                        +:+ "' already exists")))])).
Proof.
  intros HD -> -> Hdir Hdst Hreal Hn Hsd.
  rewrite (dispose_move_ready clock i path1 path2 D) by auto.
  rewrite decide_False by congruence. rewrite app_nil_r.
  rewrite (insert_id (fs w) D Dir) by done.
  assert (posixpath.has_sep D = false) as Hs
    by (rewrite HD; apply move_dir_no_sep).
  assert (D ≠ "") as Hnz by (rewrite HD; apply move_dir_nonempty).
  rewrite join_under by (try done; apply basename_has_no_sep).
  set (dst := D +:+ "/" +:+ posixpath.basename path2) in *.
  unfold try_except. rewrite bind_run. unfold shutil.move.
  rewrite bind_run, path_isdir_run. cbn [fs]. rewrite Hdst.
  cbv iota beta. cbn [is_dir_node andb].
  rewrite (bool_decide_false (path2 = dst)) by done. cbv iota beta.
  rewrite bind_run, bind_run, path_exists_run. cbn [fs]. rewrite Hreal.
  destruct n; [| |done]; cbv iota beta; unfold raise; cbv iota beta;
    cbn [is_shutil_Error]; rewrite print_run; cbn [fs ticks trace];
    by rewrite <- !app_assoc.
Qed.

Definition clash_tree : gmap string node :=
  list_to_map
    [("d", Dir);
     ("d/a.txt", File (String.list_byte_of_string "hello") true None);
     ("d/b.txt", File (String.list_byte_of_string "hello") true None);
     ("duplicates_20261104_090507", Dir);
     ("duplicates_20261104_090507/a.txt", Dir);
     ("duplicates_20261104_090507/a.txt/a.txt",
      File (String.list_byte_of_string "kept") true None)].

Lemma move_name_clash_is_reported_witness :
  dispose still_clock "move" 0 ("d/b.txt", "d/a.txt") (World clash_tree 0 [])
    = (Ret tt,
       World (fs (World clash_tree 0 [])) (S (ticks (World clash_tree 0 [])))
         (trace (World clash_tree 0 [])
            ++ report_lines 0 ("d/b.txt", "d/a.txt")
            ++ [Print (MoveErrorMsg
                  (shutil_Error
                     ("Destination path '"
                        +:+ "duplicates_20261104_090507/a.txt/a.txt"
                        +:+ "' already exists")))])).
Proof.
  apply (move_name_clash_is_reported still_clock 0 "d/b.txt" "d/a.txt"
           "duplicates_20261104_090507" "duplicates_20261104_090507/a.txt"
           "duplicates_20261104_090507/a.txt/a.txt"
           (File (String.list_byte_of_string "kept") true None)
           (World clash_tree 0 [])).
  - vm_compute. reflexivity.
  - vm_compute. reflexivity.
  - vm_compute. reflexivity.
  - vm_compute. reflexivity.
  - vm_compute. reflexivity.
  - vm_compute. reflexivity.
  - discriminate.
  - discriminate.
Defined.



